(** * training_dynamics.utils.data_tools

    A shallow embedding of [src/training_dynamics/utils/data_tools.py]:
    the balanced-symbol checker [is_balanced] and the loader
    [dyck2dataset], with the properties of both.

    Python values are modelled as follows.
    - A [str] is a [string]; its characters are code points below 256.
      Iterating a [str] yields one-character strings ([char_list]).
    - A [dict] is a [gmap]; [d[k]] raises [KeyError] on a missing key.
    - A [list] is a [list]; [append] adds at the end and [pop] removes
      the last element, raising [IndexError] on an empty list.
    - Exceptions are results in the error monad [py].
    - The file system, [os.path.basename] and the [parse] library are
      the environment of the loader: parameters of its model.
    - A [datasets.Dataset] is given by its columns.  [Dataset.from_dict]
      stores an integer in 64 bits and raises [OverflowError] for one
      that does not fit.

    Part I is the program, Part II the notions in which its properties
    are stated, Part III the lemmas and the theorems. *)

From Stdlib Require Import Ascii String.
From stdpp Require Import gmap strings list fin_maps.

(** * Part I: the program *)

(** ** Python runtime fragments *)

Module Py.

Inductive exn : Type :=
| KeyError (key : string)
| IndexError
| TypeError
| FileNotFoundError
| OverflowError.

Inductive py (A : Type) : Type :=
| Ok (a : A)
| Raise (e : exn).
Global Arguments Ok {A} a.
Global Arguments Raise {A} e.

Global Instance py_ret : MRet py := λ A a, Ok a.
Global Instance py_bind : MBind py := λ A B k c,
  match c with
  | Ok a => k a
  | Raise e => Raise e
  end.

(** [list(txt)] for a [str]: its characters, each a one-character [str]. *)
Fixpoint char_list (txt : string) : list string :=
  match txt with
  | EmptyString => []
  | String c rest => String c EmptyString :: char_list rest
  end.

(** [ch in d.keys()] *)
Definition in_keys {V : Type} (d : gmap string V) (ch : string) : bool :=
  bool_decide (is_Some (d !! ch)).

(** [ch in d.values()] *)
Definition in_values (d : gmap string string) (ch : string) : bool :=
  bool_decide (ch ∈ (map_to_list d).*2).

(** [d[key]] *)
Definition getitem {V : Type} (d : gmap string V) (key : string) : py V :=
  match d !! key with
  | Some v => Ok v
  | None => Raise (KeyError key)
  end.

(** [l.append(x)] *)
Definition append {A : Type} (l : list A) (x : A) : list A := l ++ [x].

(** [l.pop()]: the last element and the list without it. *)
Fixpoint pop {A : Type} (l : list A) : py (A * list A) :=
  match l with
  | [] => Raise IndexError
  | [x] => Ok (x, [])
  | x :: rest =>
      match pop rest with
      | Ok (y, rest') => Ok (y, x :: rest')
      | Raise e => Raise e
      end
  end.

End Py.

Import Py.

(** ** [is_balanced] *)

(** The default value of the [symbols] argument:
    [{")": "(", "]": "[", "}": "{"}]. *)
Definition default_symbols : gmap string string :=
  {[ ")" := "("; "]" := "["; "}" := "{" ]}.

(** What one iteration of the [for] loop leaves behind: the stack for the
    next iteration, or the value of a [return] inside the loop. *)
Inductive flow : Type :=
| Next (stack : list string)
| Return (b : bool).

(** The body of [for ch in char_list]. *)
Definition loop_body (symbols : gmap string string) (ch : string)
    (stack : list string) : py flow :=
  let stack := if in_values symbols ch then append stack ch else stack in
  if in_keys symbols ch then
    let opening_symbol := "" in
    '(opening_symbol, stack) ←
      (if Nat.ltb 0 (length stack) then pop stack
       else Ok (opening_symbol, stack));
    expected ← getitem symbols ch;
    if bool_decide (opening_symbol ≠ expected) then Ok (Return false)
    else Ok (Next stack)
  else Ok (Next stack).

(** The [for] loop, started with [stack]. *)
Fixpoint for_loop (symbols : gmap string string) (chars : list string)
    (stack : list string) : py flow :=
  match chars with
  | [] => Ok (Next stack)
  | ch :: rest =>
      r ← loop_body symbols ch stack;
      match r with
      | Next stack' => for_loop symbols rest stack'
      | Return b => Ok (Return b)
      end
  end.

Definition is_balanced (txt : string) (symbols : gmap string string) : py bool :=
  let stack := [] in
  let char_list := char_list txt in
  r ← for_loop symbols char_list stack;
  match r with
  | Return b => Ok b
  | Next stack => Ok (Nat.eqb (length stack) 0)
  end.

(** ** [dyck2dataset] *)

(** [str.replace(old, new)] for a non-empty [old], as at both call sites:
    the occurrences of [old] are found from left to right, without
    overlap.  [skip] counts the characters of an occurrence just replaced
    that are still to be passed over. *)
Fixpoint replace_from (skip : nat) (old new s : string) : string :=
  match s with
  | EmptyString => EmptyString
  | String c rest =>
      match skip with
      | S n => replace_from n old new rest
      | O =>
          if String.prefix old s
          then new +:+ replace_from (String.length old - 1) old new rest
          else String c (replace_from 0 old new rest)
      end
  end.

Definition replace (old new s : string) : string := replace_from 0 old new s.

(** [c.isspace()] for a code point below 256. *)
Definition isspace (c : ascii) : bool :=
  let n := nat_of_ascii c in
  (Nat.leb 9 n && Nat.leb n 13) || (Nat.leb 28 n && Nat.leb n 32)
  || Nat.eqb n 133 || Nat.eqb n 160.

Fixpoint lstrip (s : string) : string :=
  match s with
  | EmptyString => EmptyString
  | String c rest => if isspace c then lstrip rest else s
  end.

Fixpoint rstrip (s : string) : string :=
  match s with
  | EmptyString => EmptyString
  | String c rest =>
      match rstrip rest with
      | EmptyString => if isspace c then EmptyString else String c EmptyString
      | rest' => String c rest'
      end
  end.

(** [s.strip()] *)
Definition strip (s : string) : string := lstrip (rstrip s).

Definition newline : string := String (ascii_of_nat 10) EmptyString.

(** [line.replace("END", "").replace("\n", "").strip()] *)
Definition clean_line (line : string) : string :=
  strip (replace newline "" (replace "END" "" line)).

(** A cell of the table: [k] and [m] are integers, the rest strings. *)
Inductive value : Type :=
| VInt (n : Z)
| VStr (s : string).

(** The named fields of a match of ["k{k:d}_m{m:d}_tr{tr}.{subset}"]. *)
Record parsed : Type := Parsed {
  parsed_k : Z;
  parsed_m : Z;
  parsed_tr : string;
  parsed_subset : string;
}.

(** [parsed[key]] *)
Definition parsed_getitem (p : parsed) (key : string) : py value :=
  if String.eqb key "k" then Ok (VInt (parsed_k p))
  else if String.eqb key "m" then Ok (VInt (parsed_m p))
  else if String.eqb key "tr" then Ok (VStr (parsed_tr p))
  else if String.eqb key "subset" then Ok (VStr (parsed_subset p))
  else Raise (KeyError key).

(** A dictionary of columns, from column name to cells. *)
Abbreviation columns := (gmap string (list value)).

(** [dataset_dict] holds the columns themselves, or with [use_splits]
    one dictionary of columns per subset: its type follows the flag. *)
Definition dataset_dict_type (use_splits : bool) : Type :=
  if use_splits then gmap string columns else columns.

(** What [dyck2dataset] returns: a [datasets.Dataset], given by its
    columns, or a [datasets.DatasetDict] of such. *)
Inductive dataset : Type :=
| Dataset (table : columns)
| DatasetDict (splits : gmap string columns).

(** The integers of a table are stored in 64 bits. *)
Definition int64 (n : Z) : bool :=
  (Z.leb (- 2 ^ 63) n && Z.ltb n (2 ^ 63))%Z.

Definition cell_fits (v : value) : bool :=
  match v with
  | VInt n => int64 n
  | VStr _ => true
  end.

(** [datasets.Dataset.from_dict(mapping)]: the table of the columns.  An
    integer that does not fit in 64 bits makes the call raise
    [OverflowError].  The columns that the loop builds have one length
    and cells of one type each, so that nothing else is refused. *)
Definition from_dict (mapping : columns) : py columns :=
  if bool_decide (map_Forall (λ _ col, Forall (λ v, cell_fits v = true) col) mapping)
  then Ok mapping
  else Raise OverflowError.

(** [{split: datasets.Dataset.from_dict(dataset_dict[split])
      for split in dataset_dict.keys()}], as the list of its items.
    Every refusal raises the same error, so that the order in which the
    splits are taken does not show in the result. *)
Fixpoint from_dict_each (items : list (string * columns)) :
    py (list (string * columns)) :=
  match items with
  | [] => Ok []
  | (split, mapping) :: rest =>
      table ← from_dict mapping;
      tables ← from_dict_each rest;
      Ok ((split, table) :: tables)
  end.

Definition col_names (use_splits : bool) : list string :=
  let col_names := ["k"; "m"; "tr"] in
  if negb use_splits then col_names ++ ["subset"] else col_names.

(** [for key in keys: if key not in current_split.keys(): current_split[key] = []] *)
Fixpoint init_columns (keys : list string) (current_split : columns) : columns :=
  match keys with
  | [] => current_split
  | key :: rest =>
      init_columns rest
        (if negb (in_keys current_split key) then <[key := []]> current_split
         else current_split)
  end.

(** [current_split[key].extend(items)] *)
Definition extend (current_split : columns) (key : string)
    (items : list value) : py columns :=
  col ← getitem current_split key;
  Ok (<[key := col ++ items]> current_split).

(** [for key in keys: current_split[key].extend([parsed[key]] * n)] *)
Fixpoint extend_fields (p : parsed) (n : nat) (keys : list string)
    (current_split : columns) : py columns :=
  match keys with
  | [] => Ok current_split
  | key :: rest =>
      col ← getitem current_split key;
      v ← parsed_getitem p key;
      extend_fields p n rest (<[key := col ++ replicate n v]> current_split)
  end.

Section loader.
(** The environment of the loader: [os.path.basename], the match of the
    file-name pattern ([None] when the name does not follow it), and
    the lines that [readlines] returns for each file that can be
    opened. *)
Variable basename : string → string.
Variable parse : string → option parsed.
Variable fs : gmap string (list string).

(** [with open(file_path, "r") as f: f.readlines()] *)
Definition readlines (file_path : string) : py (list string) :=
  match fs !! file_path with
  | Some lines => Ok lines
  | None => Raise FileNotFoundError
  end.

(** The part of the loop body that works on [current_split]. *)
Definition fill_split (use_splits : bool) (p : parsed) (file_path : string)
    (current_split : columns) : py columns :=
  let current_split :=
    init_columns (col_names use_splits ++ ["text"]) current_split in
  lines ← readlines file_path;
  let lines := clean_line <$> lines in
  current_split ← extend current_split "text" (VStr <$> lines);
  extend_fields p (length lines) (col_names use_splits) current_split.

(** The body of [for file_path in files].  With [use_splits],
    [current_split] is [dataset_dict[subset]], and what is done to it
    is done to that entry. *)
Definition file_body (use_splits : bool) (file_path : string) :
    dataset_dict_type use_splits → py (dataset_dict_type use_splits) :=
  let file_name := basename file_path in
  match use_splits with
  | false => λ dataset_dict,
      p ← match parse file_name with Some p => Ok p | None => Raise TypeError end;
      fill_split false p file_path dataset_dict
  | true => λ dataset_dict,
      p ← match parse file_name with Some p => Ok p | None => Raise TypeError end;
      let subset := parsed_subset p in
      let dataset_dict :=
        if negb (in_keys dataset_dict subset) then <[subset := ∅]> dataset_dict
        else dataset_dict in
      current_split ← getitem dataset_dict subset;
      current_split ← fill_split true p file_path current_split;
      Ok (<[subset := current_split]> dataset_dict)
  end.

Fixpoint for_files (use_splits : bool) (files : list string)
    (dataset_dict : dataset_dict_type use_splits) : py (dataset_dict_type use_splits) :=
  match files with
  | [] => Ok dataset_dict
  | file_path :: rest =>
      dataset_dict ← file_body use_splits file_path dataset_dict;
      for_files use_splits rest dataset_dict
  end.

(** [files] is the list of paths; a single path or a directory is
    turned into such a list before the loop. *)
Definition dyck2dataset (files : list string) (use_splits : bool) : py dataset :=
  match use_splits with
  | true =>
      dataset_dict ← for_files true files (∅ : gmap string columns);
      splits ← from_dict_each (map_to_list dataset_dict);
      Ok (DatasetDict (list_to_map splits))
  | false =>
      dataset_dict ← for_files false files (∅ : columns);
      table ← from_dict dataset_dict;
      Ok (Dataset table)
  end.
End loader.

(** * Part II: the notions the properties are stated with *)

(** ** What the checker is meant to decide

    The notions below are stated on the characters of the text alone;
    none of them mentions the stack. *)

Section balance.
Context (symbols : gmap string string).
Implicit Types (ch o c : string) (w u v U : list string).

(** Well-nested texts: plain characters anywhere, and every opening
    symbol closed, after a well-nested stretch, by a closing symbol
    that the mapping sends to it. *)
Inductive Balanced : list string → Prop :=
| Balanced_nil : Balanced []
| Balanced_plain ch w :
    in_values symbols ch = false → in_keys symbols ch = false →
    Balanced w → Balanced (ch :: w)
| Balanced_pair o u c v :
    symbols !! c = Some o → Balanced u → Balanced v →
    Balanced (o :: u ++ c :: v).

(** The closing symbol matching an opening symbol [o] occurs in [rest],
    the text after [o]. *)
Definition closed_in (o : string) (rest : list string) : Prop :=
  ∃ u c v, rest = u ++ c :: v ∧ Balanced u ∧ symbols !! c = Some o.

(** [Unmatched w U]: [U] lists, in text order, the opening symbols of
    [w] whose matching closing symbol does not occur in [w]. *)
Inductive Unmatched : list string → list string → Prop :=
| Unmatched_nil : Unmatched [] []
| Unmatched_open o rest U :
    in_values symbols o = true → ¬ closed_in o rest →
    Unmatched rest U → Unmatched (o :: rest) (o :: U)
| Unmatched_skip ch rest U :
    in_values symbols ch = false ∨ closed_in ch rest →
    Unmatched rest U → Unmatched (ch :: rest) U.

(** Every closing symbol matches the most recent unmatched opening
    symbol before it, and nothing is left unmatched at the end. *)
Definition WellMatched (chars : list string) : Prop :=
  (∀ pre c post, chars = pre ++ c :: post → in_keys symbols c = true →
     ∃ U o, Unmatched pre (U ++ [o]) ∧ symbols !! c = Some o)
  ∧ Unmatched chars [].

(** Conditions on the mapping. *)

(** No closing symbol is also an opening symbol. *)
Definition disjoint_roles : Prop :=
  map_Forall (λ k _, in_values symbols k = false) symbols.

(** No opening symbol is listed for two closing symbols. *)
Definition duplicate_free : Prop := NoDup (map_to_list symbols).*2.

(** The empty string, which the scan uses for "nothing popped", is not
    an opening symbol. *)
Definition no_empty_opening : Prop := in_values symbols "" = false.

(** The shape of a text that scans to the end, used in the proofs: plain
    characters, closed pairs, opening symbols still open and, at the top
    level only ([top = true]), closing symbols that the mapping sends to
    the empty string.  [U] lists the opening symbols still open. *)
Inductive Shape : bool → list string → list string → Prop :=
| Shape_nil top : Shape top [] []
| Shape_plain top ch w U :
    in_values symbols ch = false → in_keys symbols ch = false →
    Shape top w U → Shape top (ch :: w) U
| Shape_free c w U :
    symbols !! c = Some "" → Shape true w U → Shape true (c :: w) U
| Shape_pair top o u c w U :
    symbols !! c = Some o → Balanced u → Shape top w U →
    Shape top (o :: u ++ c :: w) U
| Shape_open top o w U :
    in_values symbols o = true → Shape false w U →
    Shape top (o :: w) (o :: U).
End balance.

Global Instance disjoint_roles_dec symbols : Decision (disjoint_roles symbols).
Proof. unfold disjoint_roles. apply _. Defined.
Global Instance duplicate_free_dec symbols : Decision (duplicate_free symbols).
Proof. unfold duplicate_free. apply _. Defined.
Global Instance no_empty_opening_dec symbols : Decision (no_empty_opening symbols).
Proof. unfold no_empty_opening. apply _. Defined.

(** Popping a stack until it is empty: the items in the order in which
    [pop] returns them. *)
Fixpoint pops {A : Type} (n : nat) (l : list A) : list A :=
  match n with
  | 0 => []
  | S n' =>
      match pop l with
      | Ok (x, l') => x :: pops n' l'
      | Raise _ => []
      end
  end.

Definition drain {A : Type} (l : list A) : list A := pops (length l) l.

(** The construction of the classic balanced text: each opening symbol
    of the default mapping is sent to its closing symbol, and the order
    is reversed. *)
Definition flip (c : ascii) : ascii :=
  if Ascii.eqb c "(" then ")"%char
  else if Ascii.eqb c "[" then "]"%char
  else if Ascii.eqb c "{" then "}"%char
  else c.

Definition reverse_and_flip (s : string) : string :=
  string_of_list_ascii (map flip (rev (list_ascii_of_string s))).

(** ** What [clean_line] removes *)

(** [old] occurs somewhere in [s]. *)
Fixpoint occurs (old s : string) : bool :=
  String.prefix old s ||
  match s with
  | EmptyString => false
  | String _ rest => occurs old rest
  end.

(** [s] without the characters equal to [c]. *)
Fixpoint remove_char (c : ascii) (s : string) : string :=
  match s with
  | EmptyString => EmptyString
  | String c' rest =>
      if Ascii.eqb c' c then remove_char c rest else String c' (remove_char c rest)
  end.

(** The line made of [pieces], each followed by ["END"], and then [last]. *)
Definition join_END (pieces : list string) (last : string) : string :=
  foldr (λ piece rest, piece +:+ "END" +:+ rest) last pieces.

(** ** The table that [dyck2dataset] builds *)

(** A row: the fields of the file name and the text of the line. *)
Definition cell (name : string) (r : parsed * string) : value :=
  if String.eqb name "text" then VStr r.2
  else if String.eqb name "k" then VInt (parsed_k r.1)
  else if String.eqb name "m" then VInt (parsed_m r.1)
  else if String.eqb name "tr" then VStr (parsed_tr r.1)
  else VStr (parsed_subset r.1).

(** The columns named [names] of a list of rows. *)
Definition layout (names : list string) (rows : list (parsed * string)) : columns :=
  list_to_map ((λ name, (name, cell name <$> rows)) <$> names).

(** The number of rows of a table. *)
Definition num_rows (table : columns) : nat :=
  length (default [] (table !! "text")).

(** The integers of a row can be stored in a table. *)
Definition row_fits (r : parsed * string) : bool :=
  int64 (parsed_k r.1) && int64 (parsed_m r.1).

Section loader_rows.
Variable basename : string → string.
Variable parse : string → option parsed.
Variable fs : gmap string (list string).

(** The file name follows the pattern and the file can be opened. *)
Definition loadable (file_path : string) : Prop :=
  is_Some (parse (basename file_path)) ∧ is_Some (fs !! file_path).

(** One row for each line of the file. *)
Definition file_rows (file_path : string) : list (parsed * string) :=
  match parse (basename file_path), fs !! file_path with
  | Some p, Some lines => (λ line, (p, clean_line line)) <$> lines
  | _, _ => []
  end.

Definition table_rows (files : list string) : list (parsed * string) :=
  files ≫= file_rows.

(** The subsets named by the files. *)
Definition subsets (files : list string) : list string :=
  omap (λ file_path, parsed_subset <$> parse (basename file_path)) files.

(** The number of lines of the files, empty lines included. *)
Definition line_count (files : list string) : nat :=
  sum_list ((λ file_path, length (default [] (fs !! file_path))) <$> files).

(** The rows of the files whose subset is [s]. *)
Definition rows_in (files : list string) (s : string) : list (parsed * string) :=
  filter (λ r, parsed_subset r.1 = s) (table_rows files).

(** Every subset seen so far has its table, holding the rows of its
    files. *)
Definition splits_of (files : list string) (dd : gmap string columns) : Prop :=
  ∀ s, dd !! s =
    if bool_decide (s ∈ subsets files)
    then Some (layout (col_names true ++ ["text"]) (rows_in files s))
    else None.
End loader_rows.

Global Instance loadable_dec basename parse fs file_path :
  Decision (loadable basename parse fs file_path).
Proof. unfold loadable. apply _. Defined.

(** The number of lines of the files that are not empty once cleaned. *)
Definition nonempty_line_count (fs : gmap string (list string))
    (files : list string) : nat :=
  sum_list ((λ file_path,
    length (filter (λ line, clean_line line ≠ "") (default [] (fs !! file_path))))
    <$> files).

(** ** Counting and filtering the characters of a text *)

(** The number of opening symbols, and of closing symbols, among
    [chars]. *)
Definition count_opening (symbols : gmap string string) (chars : list string) : nat :=
  length (filter (λ ch, in_values symbols ch = true) chars).

Definition count_closing (symbols : gmap string string) (chars : list string) : nat :=
  length (filter (λ ch, in_keys symbols ch = true) chars).

(** The opening and closing symbols of [chars], in order. *)
Definition structural (symbols : gmap string string) (chars : list string) : list string :=
  filter (λ ch, in_values symbols ch = true ∨ in_keys symbols ch = true) chars.

(** The opening and closing symbols of a text. *)
Definition skeleton (symbols : gmap string string) (s : string) : list string :=
  structural symbols (char_list s).

(** The character [c] is neither an opening nor a closing symbol. *)
Definition plain_char (symbols : gmap string string) (c : ascii) : bool :=
  negb (in_values symbols (String c "")) && negb (in_keys symbols (String c "")).

(** The characters that [clean_line] may delete: white space and the
    letters of ["END"]. *)
Definition removable (c : ascii) : bool :=
  isspace c || Ascii.eqb c "E" || Ascii.eqb c "N" || Ascii.eqb c "D".

(** None of the characters that [clean_line] may delete is a symbol of
    the mapping. *)
Definition clean_line_safe (symbols : gmap string string) : bool :=
  forallb (λ n, implb (removable (ascii_of_nat n)) (plain_char symbols (ascii_of_nat n)))
          (seq 0 256).

(** Decidable side conditions on concrete mappings are settled by
    evaluating their decision procedure. *)
Ltac decide_by_vm := apply (bool_decide_unpack _); vm_compute; exact I.

(** * Part III: lemmas and theorems *)

(** ** Facts about the runtime fragments *)

Section runtime.
Context {A : Type}.
Implicit Types (l : list A) (x : A).

Lemma pop_app l x : pop (l ++ [x]) = Ok (x, l).
Proof.
  induction l as [|y l IH]; [done|]. cbn [app pop].
  rewrite IH. by destruct l.
Qed.

Lemma pop_append l x : pop (append l x) = Ok (x, l).
Proof. apply pop_app. Qed.

Lemma pop_nonempty l : 0 < length l → ∃ x l', l = l' ++ [x] ∧ pop l = Ok (x, l').
Proof.
  destruct l as [|y l _] using rev_ind; [simpl; lia|].
  intros _. exists y, l. by rewrite pop_app.
Qed.
End runtime.

Lemma bind_Ok {A B : Type} (a : A) (k : A → py B) : (Ok a ≫= k) = k a.
Proof. reflexivity. Qed.

Lemma in_keys_true {V} (d : gmap string V) ch :
  in_keys d ch = true ↔ is_Some (d !! ch).
Proof. apply bool_decide_eq_true. Qed.

Lemma in_keys_false {V} (d : gmap string V) ch :
  in_keys d ch = false ↔ d !! ch = None.
Proof.
  unfold in_keys. rewrite bool_decide_eq_false. symmetry. apply eq_None_not_Some.
Qed.

Lemma in_keys_lookup {V} (d : gmap string V) ch v :
  d !! ch = Some v → in_keys d ch = true.
Proof. intros H. apply in_keys_true. eauto. Qed.

Lemma in_values_true (d : gmap string string) ch :
  in_values d ch = true ↔ ∃ k, d !! k = Some ch.
Proof.
  unfold in_values. rewrite bool_decide_eq_true, list_elem_of_fmap. split.
  - intros [[k v] [-> Hkv]]. exists k. by apply elem_of_map_to_list.
  - intros [k Hk]. exists (k, ch). split; [done|]. by apply elem_of_map_to_list.
Qed.

Lemma in_values_lookup (d : gmap string string) k v :
  d !! k = Some v → in_values d v = true.
Proof. intros H. apply in_values_true. eauto. Qed.

Lemma char_list_app a b : char_list (a +:+ b) = char_list a ++ char_list b.
Proof. induction a as [|c a IH]; [done|]. simpl. by rewrite IH. Qed.

Lemma char_list_nonempty txt : Forall (λ ch, ch ≠ "") (char_list txt).
Proof. induction txt; constructor; done. Qed.

(** ** One iteration, case by case *)

Section iteration.
Context (symbols : gmap string string).
Implicit Types (ch o : string) (stack : list string).

Lemma loop_body_plain ch stack :
  in_values symbols ch = false → in_keys symbols ch = false →
  loop_body symbols ch stack = Ok (Next stack).
Proof. unfold loop_body. by intros -> ->. Qed.

Lemma loop_body_push ch stack :
  in_values symbols ch = true → in_keys symbols ch = false →
  loop_body symbols ch stack = Ok (Next (stack ++ [ch])).
Proof. unfold loop_body. by intros -> ->. Qed.

Lemma loop_body_close_empty ch o :
  in_values symbols ch = false → symbols !! ch = Some o →
  loop_body symbols ch [] =
    Ok (if bool_decide ("" ≠ o) then Return false else Next []).
Proof.
  intros Hv Hk. unfold loop_body.
  rewrite Hv, (in_keys_lookup _ _ _ Hk). cbn. unfold getitem.
  rewrite Hk. cbn. by case_bool_decide.
Qed.

Lemma loop_body_close_top ch o stack top :
  in_values symbols ch = false → symbols !! ch = Some o →
  loop_body symbols ch (stack ++ [top]) =
    Ok (if bool_decide (top ≠ o) then Return false else Next stack).
Proof.
  intros Hv Hk. unfold loop_body.
  rewrite Hv, (in_keys_lookup _ _ _ Hk).
  replace (Nat.ltb 0 (length (stack ++ [top]))) with true
    by (symmetry; apply Nat.ltb_lt; rewrite length_app; simpl; lia).
  rewrite pop_app. cbn. unfold getitem. rewrite Hk. cbn.
  by case_bool_decide.
Qed.

Lemma loop_body_dual ch o stack :
  in_values symbols ch = true → symbols !! ch = Some o →
  loop_body symbols ch stack =
    Ok (if bool_decide (ch ≠ o) then Return false else Next stack).
Proof.
  intros Hv Hk. unfold loop_body.
  rewrite Hv, (in_keys_lookup _ _ _ Hk). unfold append.
  replace (Nat.ltb 0 (length (stack ++ [ch]))) with true
    by (symmetry; apply Nat.ltb_lt; rewrite length_app; simpl; lia).
  rewrite pop_app. cbn. unfold getitem. rewrite Hk. cbn.
  by case_bool_decide.
Qed.

(** No iteration raises. *)
Lemma loop_body_total ch stack : ∃ r, loop_body symbols ch stack = Ok r.
Proof.
  destruct (in_values symbols ch) eqn:Hv, (symbols !! ch) as [o|] eqn:Hk.
  - rewrite (loop_body_dual _ o) by done. eauto.
  - rewrite loop_body_push; [eauto|done|by apply in_keys_false].
  - destruct stack as [|top stack _] using rev_ind.
    + rewrite (loop_body_close_empty _ o) by done. eauto.
    + rewrite (loop_body_close_top _ o) by done. eauto.
  - rewrite loop_body_plain; [eauto|done|by apply in_keys_false].
Qed.

Lemma for_loop_app a b stack :
  for_loop symbols (a ++ b) stack =
    match for_loop symbols a stack with
    | Ok (Next stack') => for_loop symbols b stack'
    | r => r
    end.
Proof.
  revert stack. induction a as [|ch a IH]; intros stack; [done|].
  cbn. destruct (loop_body symbols ch stack) as [[stack'|b']|e]; cbn; auto.
Qed.

Lemma for_loop_snoc a ch stack stack' :
  for_loop symbols a stack = Ok (Next stack') →
  for_loop symbols (a ++ [ch]) stack =
    match loop_body symbols ch stack' with
    | Ok (Next s) => Ok (Next s)
    | r => r
    end.
Proof.
  intros H. rewrite for_loop_app, H. cbn.
  by destruct (loop_body symbols ch stack') as [[?|?]|?].
Qed.

Lemma for_loop_total chars stack : ∃ r, for_loop symbols chars stack = Ok r.
Proof.
  revert stack. induction chars as [|ch chars IH]; intros stack; cbn; [eauto|].
  destruct (loop_body_total ch stack) as [[stack'|b] ->]; cbn; eauto.
Qed.

(** A prefix of a scan that ran to the end ran to its own end. *)
Lemma for_loop_prefix a b stack stack' :
  for_loop symbols (a ++ b) stack = Ok (Next stack') →
  ∃ mid, for_loop symbols a stack = Ok (Next mid)
         ∧ for_loop symbols b mid = Ok (Next stack').
Proof.
  rewrite for_loop_app.
  destruct (for_loop symbols a stack) as [[mid|?]|?]; [eauto|done..].
Qed.
End iteration.

Section balance_facts.
Context (symbols : gmap string string).
Context (Hdisj : disjoint_roles symbols).
Implicit Types (ch o c : string) (w u v U stack : list string).

Lemma closing_not_opening c o :
  symbols !! c = Some o → in_values symbols c = false.
Proof. intros H. exact (Hdisj c o H). Qed.

Lemma opening_not_closing o :
  in_values symbols o = true → in_keys symbols o = false.
Proof.
  intros Hv. destruct (in_keys symbols o) eqn:Hk; [|done].
  apply in_keys_true in Hk as [x Hx].
  apply closing_not_opening in Hx. congruence.
Qed.

Lemma loop_body_open o stack :
  in_values symbols o = true →
  loop_body symbols o stack = Ok (Next (stack ++ [o])).
Proof. intros Hv. apply loop_body_push; auto using opening_not_closing. Qed.

Lemma loop_body_match c o stack :
  symbols !! c = Some o →
  loop_body symbols c (stack ++ [o]) = Ok (Next stack).
Proof.
  intros Hk. rewrite (loop_body_close_top _ _ o) by eauto using closing_not_opening.
  by rewrite bool_decide_eq_false_2 by (intros ?; congruence).
Qed.

Lemma Balanced_app u v : Balanced symbols u → Balanced symbols v → Balanced symbols (u ++ v).
Proof.
  induction 1 as [|ch w Hv Hk _ IH|o u' c v' Hc Hu _ _ IHv]; intros Hb; cbn.
  - done.
  - constructor; auto.
  - rewrite <- app_assoc. cbn. apply Balanced_pair; auto.
Qed.

(** A well-nested text leaves any stack as it found it. *)
Lemma Balanced_run u stack : Balanced symbols u → for_loop symbols u stack = Ok (Next stack).
Proof.
  intros Hb. revert stack.
  induction Hb as [|ch w Hv Hk _ IH|o u c v Hc _ IHu _ IHv]; intros stack.
  - done.
  - cbn. rewrite loop_body_plain by done. cbn. apply IH.
  - cbn. rewrite loop_body_open by eauto using in_values_lookup. cbn.
    rewrite for_loop_app, IHu. cbn.
    rewrite (loop_body_match c o) by done. cbn. apply IHv.
Qed.
(** A text of a given shape scans to the end and leaves its unmatched
    opening symbols on the stack. *)
Lemma Shape_run top w U stack :
  Shape symbols top w U → (top = true → stack = []) →
  for_loop symbols w stack = Ok (Next (stack ++ U)).
Proof.
  intros Hs. revert stack.
  induction Hs as [top|top ch w U Hv Hk _ IH|c w U Hc _ IH
                  |top o u c w U Hc Hu _ IH|top o w U Hv _ IH];
    intros stack Htop.
  - cbn. by rewrite app_nil_r.
  - cbn. rewrite loop_body_plain by done. cbn. by apply IH.
  - rewrite (Htop eq_refl). cbn.
    rewrite (loop_body_close_empty _ c "") by eauto using closing_not_opening.
    cbn. by apply IH.
  - cbn. rewrite loop_body_open by eauto using in_values_lookup. cbn.
    rewrite for_loop_app, Balanced_run by done. cbn.
    rewrite (loop_body_match c o) by done. cbn. by apply IH.
  - cbn. rewrite loop_body_open by done. cbn.
    rewrite IH by done. by rewrite <- app_assoc.
Qed.

Lemma Shape_snoc_plain top w U ch :
  in_values symbols ch = false → in_keys symbols ch = false →
  Shape symbols top w U → Shape symbols top (w ++ [ch]) U.
Proof.
  intros Hv Hk. induction 1; cbn.
  - apply Shape_plain; [done..|constructor].
  - by apply Shape_plain.
  - by apply Shape_free.
  - rewrite <- app_assoc. cbn. by apply Shape_pair.
  - by apply Shape_open.
Qed.

Lemma Shape_snoc_open top w U o :
  in_values symbols o = true →
  Shape symbols top w U → Shape symbols top (w ++ [o]) (U ++ [o]).
Proof.
  intros Hv. induction 1; cbn.
  - apply Shape_open; [done|constructor].
  - by apply Shape_plain.
  - by apply Shape_free.
  - rewrite <- app_assoc. cbn. by apply Shape_pair.
  - by apply Shape_open.
Qed.

Lemma Shape_snoc_free top w U c :
  symbols !! c = Some "" → Shape symbols top w U → top = true → U = [] →
  Shape symbols true (w ++ [c]) [].
Proof.
  intros Hc. induction 1 as [| | |top o u c' w U Hc' Hu _ IH|]; intros Htop HU; subst; cbn.
  - apply Shape_free; [done|constructor].
  - apply Shape_plain; auto.
  - apply Shape_free; auto.
  - rewrite <- app_assoc. cbn. apply Shape_pair; auto.
  - done.
Qed.

Lemma Shape_closed_Balanced top w U :
  Shape symbols top w U → top = false → U = [] → Balanced symbols w.
Proof.
  induction 1; intros Htop HU; try done.
  - constructor.
  - apply Balanced_plain; auto.
  - apply Balanced_pair; auto.
Qed.

Lemma Shape_snoc_close top w U' c o :
  symbols !! c = Some o → Shape symbols top w U' →
  ∀ U, U' = U ++ [o] → Shape symbols top (w ++ [c]) U.
Proof.
  intros Hc.
  induction 1 as [top|top ch w U' Hv Hk _ IH|c' w U' Hc' _ IH
                 |top o' u c' w U' Hc' Hu _ IH|top o' w U' Hv Hs IH];
    intros U HU; cbn.
  - by destruct U.
  - apply Shape_plain; auto.
  - apply Shape_free; auto.
  - rewrite <- app_assoc. cbn. apply Shape_pair; auto.
  - destruct U as [|x U]; cbn in HU.
    + injection HU as -> ->.
      apply Shape_pair; [done| |constructor].
      by eapply Shape_closed_Balanced.
    + injection HU as -> ->. apply Shape_open; auto.
Qed.

(** Conversely, a scan that reaches the end was given a text of that
    shape. *)
Lemma run_Shape w U :
  for_loop symbols w [] = Ok (Next U) → Shape symbols true w U.
Proof.
  revert U. induction w as [|ch w IH] using rev_ind; intros U Hrun.
  - cbn in Hrun. injection Hrun as <-. constructor.
  - apply for_loop_prefix in Hrun as (mid & Hmid & Hlast).
    specialize (IH _ Hmid). cbn in Hlast.
    destruct (in_values symbols ch) eqn:Hv, (symbols !! ch) as [o|] eqn:Hk.
    + apply closing_not_opening in Hk. congruence.
    + rewrite loop_body_open in Hlast by done. cbn in Hlast.
      injection Hlast as <-. by apply Shape_snoc_open.
    + destruct mid as [|t mid _] using rev_ind.
      * rewrite (loop_body_close_empty _ _ o) in Hlast by done.
        case_bool_decide as Ho; cbn in Hlast; [done|].
        injection Hlast as <-.
        subst o. by eapply Shape_snoc_free.
      * rewrite (loop_body_close_top _ _ o) in Hlast by done.
        case_bool_decide as Ho; cbn in Hlast; [done|].
        injection Hlast as <-.
        subst t. by eapply Shape_snoc_close.
    + apply in_keys_false in Hk.
      rewrite loop_body_plain in Hlast by done. cbn in Hlast.
      injection Hlast as <-. by apply Shape_snoc_plain.
Qed.

(** An opening symbol that finds its closing symbol in [w] makes the
    scan of [w] from an empty stack return [False] there. *)
Lemma closed_in_run o w :
  closed_in symbols o w → o ≠ "" →
  for_loop symbols w [] = Ok (Return false).
Proof.
  intros (u & c & v & -> & Hu & Hc) Ho.
  rewrite for_loop_app, Balanced_run by done. cbn.
  rewrite (loop_body_close_empty _ _ o) by eauto using closing_not_opening.
  by rewrite bool_decide_eq_true_2 by done.
Qed.

Lemma Unmatched_Balanced_app u w U :
  Balanced symbols u → Unmatched symbols w U → Unmatched symbols (u ++ w) U.
Proof.
  intros Hu. revert w U.
  induction Hu as [|ch u Hv Hk _ IH|o u c v Hc Hu IHu _ IHv]; intros w U Hw; cbn.
  - done.
  - apply Unmatched_skip; auto.
  - rewrite <- app_assoc. cbn. apply Unmatched_skip.
    + right. by exists u, c, (v ++ w).
    + apply IHu. apply Unmatched_skip; eauto using closing_not_opening.
Qed.

Lemma Shape_Unmatched top w U :
  Forall (λ ch, ch ≠ "") w → Shape symbols top w U → Unmatched symbols w U.
Proof.
  intros Hne Hs.
  induction Hs as [top|top ch w U Hv Hk _ IH|c w U Hc _ IH
                  |top o u c w U Hc Hu _ IH|top o w U Hv Hs IH].
  - constructor.
  - apply Forall_cons in Hne as [_ Hne]. apply Unmatched_skip; auto.
  - apply Forall_cons in Hne as [_ Hne].
    apply Unmatched_skip; eauto using closing_not_opening.
  - apply Forall_cons in Hne as [_ Hne].
    apply Forall_app in Hne as [_ Hne].
    apply Forall_cons in Hne as [_ Hne].
    apply Unmatched_skip; [right; by exists u, c, w|].
    apply Unmatched_Balanced_app; [done|].
    apply Unmatched_skip; eauto using closing_not_opening.
  - apply Forall_cons in Hne as [Ho Hne].
    apply Unmatched_open; auto.
    intros Hcl. apply closed_in_run in Hcl; [|done].
    rewrite (Shape_run false w U []) in Hcl by done. done.
Qed.

(** The invariant of the scan, for any text without empty items. *)
Lemma for_loop_Unmatched w stack :
  Forall (λ ch, ch ≠ "") w →
  for_loop symbols w [] = Ok (Next stack) → Unmatched symbols w stack.
Proof. intros Hne Hrun. eapply Shape_Unmatched; eauto using run_Shape. Qed.
End balance_facts.

Lemma Unmatched_inj symbols w U1 U2 :
  Unmatched symbols w U1 → Unmatched symbols w U2 → U1 = U2.
Proof.
  intros H1. revert U2.
  induction H1 as [|o rest U Hv Hn _ IH|ch rest U Hor _ IH]; intros U2 H2.
  - by inversion H2.
  - inversion H2 as [|? ? U' _ _ H'|? ? ? Hor' _]; subst.
    + f_equal. auto.
    + destruct Hor'; [congruence|done].
  - inversion H2 as [|? ? U' Hv' Hn' H'|? ? ? _ H']; subst.
    + destruct Hor; [congruence|done].
    + auto.
Qed.

Lemma drain_rev {A : Type} (l : list A) : drain l = rev l.
Proof.
  unfold drain. induction l as [|x l IH] using rev_ind; [done|].
  rewrite length_app, Nat.add_comm. cbn [length Nat.add pops].
  by rewrite pop_app, rev_app_distr, IH.
Qed.

(** ** The result of [is_balanced] in terms of the loop *)

Section result.
Context (symbols : gmap string string).
Implicit Types (ch : string) (chars stack : list string).

Lemma loop_body_Return ch stack b :
  loop_body symbols ch stack = Ok (Return b) → b = false.
Proof.
  destruct (in_values symbols ch) eqn:Hv, (symbols !! ch) as [o|] eqn:Hk.
  - rewrite (loop_body_dual _ _ o) by done. case_bool_decide; congruence.
  - rewrite loop_body_push by (done || by apply in_keys_false). congruence.
  - destruct stack as [|t stack _] using rev_ind.
    + rewrite (loop_body_close_empty _ _ o) by done. case_bool_decide; congruence.
    + rewrite (loop_body_close_top _ _ o) by done. case_bool_decide; congruence.
  - rewrite loop_body_plain by (done || by apply in_keys_false). congruence.
Qed.

Lemma for_loop_Return chars stack b :
  for_loop symbols chars stack = Ok (Return b) → b = false.
Proof.
  revert stack. induction chars as [|ch chars IH]; intros stack; cbn; [done|].
  destruct (loop_body symbols ch stack) as [[stack'|b']|e] eqn:Hb; cbn.
  - apply IH.
  - intros [= <-]. by eapply loop_body_Return.
  - done.
Qed.

Lemma is_balanced_true txt :
  is_balanced txt symbols = Ok true ↔
  for_loop symbols (char_list txt) [] = Ok (Next []).
Proof.
  unfold is_balanced.
  destruct (for_loop symbols (char_list txt) []) as [[stack|b]|e] eqn:Hrun; cbn.
  - destruct stack; cbn; split; congruence.
  - apply for_loop_Return in Hrun as ->. split; congruence.
  - split; congruence.
Qed.

Lemma is_balanced_false txt :
  is_balanced txt symbols = Ok false ↔
  for_loop symbols (char_list txt) [] = Ok (Return false)
  ∨ ∃ stack, stack ≠ [] ∧ for_loop symbols (char_list txt) [] = Ok (Next stack).
Proof.
  unfold is_balanced.
  destruct (for_loop symbols (char_list txt) []) as [[stack|b]|e] eqn:Hrun; cbn.
  - destruct stack as [|x stack]; cbn; split.
    + congruence.
    + intros [?|(? & ? & ?)]; congruence.
    + intros _. right. exists (x :: stack). by split.
    + done.
  - apply for_loop_Return in Hrun as ->. split; auto.
  - split; [congruence|]. intros [?|(? & ? & ?)]; congruence.
Qed.
End result.

Lemma Shape_no_free_Balanced symbols top w U :
  no_empty_opening symbols →
  Shape symbols top w U → U = [] → Balanced symbols w.
Proof.
  intros Hno. induction 1 as [| |c w U Hc _ _| |]; intros HU; try done.
  - constructor.
  - apply Balanced_plain; auto.
  - apply in_values_lookup in Hc. unfold no_empty_opening in Hno. congruence.
  - apply Balanced_pair; auto.
Qed.

(** X1. Under a mapping whose closing symbols are not opening symbols
    and that does not list the empty string as an opening symbol,
    [is_balanced] returns [True] exactly on the well-nested texts: those
    made of plain characters and of opening symbols closed, after a
    well-nested stretch, by a closing symbol that the mapping sends to
    them. *)
Lemma is_balanced_iff_Balanced txt symbols :
  disjoint_roles symbols → no_empty_opening symbols →
  is_balanced txt symbols = Ok true ↔ Balanced symbols (char_list txt).
Proof.
  intros Hdisj Hno. rewrite is_balanced_true. split.
  - intros Hrun. apply run_Shape in Hrun; [|done].
    by eapply Shape_no_free_Balanced.
  - intros Hb. by apply Balanced_run.
Qed.

(** ** The examples of the docstring and of the specification *)

Example is_balanced_empty : is_balanced "" default_symbols = Ok true.
Proof. reflexivity. Qed.

Example is_balanced_open : is_balanced "(" default_symbols = Ok false.
Proof. vm_compute. reflexivity. Qed.

Example is_balanced_close : is_balanced ")" default_symbols = Ok false.
Proof. vm_compute. reflexivity. Qed.

Example is_balanced_docstring_1 :
  is_balanced "({abc}) 123 []" default_symbols = Ok true.
Proof. vm_compute. reflexivity. Qed.

Example is_balanced_docstring_2 :
  is_balanced "({abc}) 123 [] (}" default_symbols = Ok false.
Proof. vm_compute. reflexivity. Qed.

Example is_balanced_sequence : is_balanced "()[]{}" default_symbols = Ok true.
Proof. vm_compute. reflexivity. Qed.

Example is_balanced_crossing : is_balanced "([)]" default_symbols = Ok false.
Proof. vm_compute. reflexivity. Qed.

(** A symbol that closes itself: pushed and popped in one iteration. *)
Example is_balanced_dual : is_balanced "|a|" {[ "|" := "|" ]} = Ok true.
Proof. vm_compute. reflexivity. Qed.

Example clean_line_trailing :
  clean_line ("( [ ] ) END" +:+ newline) = "( [ ] )".
Proof. vm_compute. reflexivity. Qed.

Example clean_line_inner : clean_line ("(END) END" +:+ newline) = "()".
Proof. vm_compute. reflexivity. Qed.

(** Occurrences are removed in one pass: what the removal brings
    together is kept. *)
Example clean_line_one_pass : clean_line ("ENENDD" +:+ newline) = "END".
Proof. vm_compute. reflexivity. Qed.

Example dyck2dataset_flat :
  dyck2dataset id (λ _, Some (Parsed 128 10 "2000000" "train"))
    {[ "a.train" := ["( ) END" +:+ newline; newline];
       "b.train" := ["[ ] END" +:+ newline] ]}
    ["a.train"; "b.train"] false
  = Ok (Dataset
          {[ "k" := [VInt 128; VInt 128; VInt 128];
             "m" := [VInt 10; VInt 10; VInt 10];
             "tr" := [VStr "2000000"; VStr "2000000"; VStr "2000000"];
             "subset" := [VStr "train"; VStr "train"; VStr "train"];
             "text" := [VStr "( )"; VStr ""; VStr "[ ]"] ]}).
Proof. vm_compute. reflexivity. Qed.

Example dyck2dataset_splits :
  dyck2dataset id
    (λ name, Some (Parsed 128 10 "2000000"
                     (if String.eqb name "a.train" then "train" else "test")))
    {[ "a.train" := ["( ) END" +:+ newline];
       "b.test" := ["[ ] END" +:+ newline] ]}
    ["a.train"; "b.test"] true
  = Ok (DatasetDict
          {[ "train" := {[ "k" := [VInt 128]; "m" := [VInt 10];
                           "tr" := [VStr "2000000"]; "text" := [VStr "( )"] ]};
             "test" := {[ "k" := [VInt 128]; "m" := [VInt 10];
                          "tr" := [VStr "2000000"]; "text" := [VStr "[ ]"] ]} ]}).
Proof. vm_compute. reflexivity. Qed.

(** ** Properties of [is_balanced] *)

(** C2. During the scan of a text, under a mapping whose opening and
    closing symbols are disjoint and free of duplicates, let [stack] be
    the stack after [n] iterations, none of which returned.  The scan
    goes on from [stack] with the rest of the text, and [stack] holds
    exactly the opening symbols scanned so far whose matching closing
    symbol has not been seen: popping it yields them most recent
    first. *)
Theorem stack_invariant txt symbols n stack :
  disjoint_roles symbols → duplicate_free symbols →
  for_loop symbols (take n (char_list txt)) [] = Ok (Next stack) →
  for_loop symbols (char_list txt) [] =
    for_loop symbols (drop n (char_list txt)) stack
  ∧ ∃ U, Unmatched symbols (take n (char_list txt)) U ∧ drain stack = rev U.
Proof.
  intros Hdisj _ Hrun. split.
  - rewrite <- (take_drop n (char_list txt)) at 1.
    by rewrite for_loop_app, Hrun.
  - exists stack. split; [|apply drain_rev].
    apply for_loop_Unmatched; [done| |done].
    apply Forall_take, char_list_nonempty.
Qed.

Lemma stack_invariant_witness :
  for_loop default_symbols (char_list "(a[{}") [] =
    for_loop default_symbols (drop 4 (char_list "(a[{}")) ["("; "["; "{"]
  ∧ ∃ U, Unmatched default_symbols (take 4 (char_list "(a[{}")) U
         ∧ drain ["("; "["; "{"] = rev U.
Proof.
  apply (stack_invariant "(a[{}" default_symbols 4 ["("; "["; "{"]).
  - decide_by_vm.
  - decide_by_vm.
  - vm_compute. reflexivity.
Defined.

(** C1, amended. For every text and every mapping whose opening and
    closing symbols are disjoint and free of duplicates and none of whose
    opening symbols is the empty string, [is_balanced] returns [True]
    exactly when every closing symbol of the text matches the most
    recent unmatched opening symbol before it and no opening symbol is
    left unmatched at the end; and a character that is neither an opening
    nor a closing symbol can be removed from the text without changing
    the result. *)
Theorem is_balanced_correct txt symbols :
  disjoint_roles symbols → duplicate_free symbols → no_empty_opening symbols →
  (is_balanced txt symbols = Ok true ↔ WellMatched symbols (char_list txt))
  ∧ (∀ a c b,
       txt = a +:+ String c b →
       in_values symbols (String c "") = false →
       in_keys symbols (String c "") = false →
       is_balanced txt symbols = is_balanced (a +:+ b) symbols).
Proof.
  intros Hdisj _ Hno. split.
  - rewrite is_balanced_true.
    pose proof (char_list_nonempty txt) as Hne.
    revert Hne. generalize (char_list txt). intros chars Hne. split.
    + intros Hrun. split; [|by apply for_loop_Unmatched].
      intros pre c post -> Hc.
      apply for_loop_prefix in Hrun as (mid & Hmid & Hrest).
      apply Forall_app in Hne as [Hpre _].
      apply for_loop_Unmatched in Hmid as HU; [|done..].
      apply in_keys_true in Hc as [o Hc]. cbn in Hrest.
      destruct mid as [|t mid _] using rev_ind.
      * rewrite (loop_body_close_empty _ _ o) in Hrest
          by eauto using closing_not_opening.
        case_bool_decide as Ho; [done|]. subst o.
        apply in_values_lookup in Hc. unfold no_empty_opening in Hno. congruence.
      * rewrite (loop_body_close_top _ _ o) in Hrest
          by eauto using closing_not_opening.
        case_bool_decide as Ho; [done|]. subst t. eauto.
    + intros [Hclose Hend].
      assert (∀ pre post, chars = pre ++ post →
                ∃ stack, for_loop symbols pre [] = Ok (Next stack)) as Hall.
      { induction pre as [|ch pre IH] using rev_ind; intros post Heq; [by eexists|].
        rewrite <- app_assoc in Heq. cbn in Heq.
        destruct (IH _ Heq) as [stack Hrun].
        rewrite (for_loop_snoc _ _ _ _ _ Hrun).
        destruct (in_values symbols ch) eqn:Hv.
        - rewrite loop_body_open by done. eauto.
        - destruct (symbols !! ch) as [o|] eqn:Hk.
          + destruct (Hclose pre ch post Heq) as (U & o' & HU & Ho');
              [by eapply in_keys_lookup|].
            assert (o' = o) as -> by congruence.
            assert (stack = U ++ [o]) as ->.
            { eapply Unmatched_inj; [|done]. apply for_loop_Unmatched; [done| |done].
              rewrite Heq in Hne. by apply Forall_app in Hne as [? _]. }
            rewrite (loop_body_match _ Hdisj ch o) by done. eauto.
          + apply in_keys_false in Hk. rewrite loop_body_plain by done. eauto. }
      destruct (Hall chars [] (eq_sym (app_nil_r _))) as [stack Hrun].
      rewrite Hrun. do 2 f_equal.
      eapply Unmatched_inj; [|done]. by apply for_loop_Unmatched.
  - intros a c b -> Hv Hk. unfold is_balanced.
    rewrite !char_list_app, !for_loop_app.
    destruct (for_loop symbols (char_list a) []) as [[stack|?]|?]; [|done..].
    cbn. by rewrite loop_body_plain by done.
Qed.

Lemma is_balanced_correct_witness :
  (is_balanced "([x])" default_symbols = Ok true
   ↔ WellMatched default_symbols (char_list "([x])"))
  ∧ (∀ a c b,
       "([x])" = a +:+ String c b →
       in_values default_symbols (String c "") = false →
       in_keys default_symbols (String c "") = false →
       is_balanced "([x])" default_symbols = is_balanced (a +:+ b) default_symbols).
Proof.
  apply (is_balanced_correct "([x])" default_symbols).
  - decide_by_vm.
  - decide_by_vm.
  - vm_compute. reflexivity.
Defined.

(** C1 as first stated fails for a mapping that lists the empty string as
    an opening symbol: the closing symbol of [")"] has no opening symbol
    before it, and the result is [True]. *)
Lemma is_balanced_correct_counterexample :
  let symbols : gmap string string := {[ ")" := "" ]} in
  disjoint_roles symbols ∧ duplicate_free symbols
  ∧ is_balanced ")" symbols = Ok true
  ∧ ¬ WellMatched symbols (char_list ")").
Proof.
  cbn. split; [|split; [|split]].
  - decide_by_vm.
  - decide_by_vm.
  - vm_compute. reflexivity.
  - intros [Hclose _].
    destruct (Hclose [] ")" []) as (U & o & HU & _); [done|by vm_compute|].
    inversion HU as [Heq| |]. by destruct U.
Qed.

(** C3, amended. If the scan reaches, with an empty stack, a closing
    symbol that is not itself an opening symbol and whose opening symbol
    in the mapping is not the empty string, the loop returns [False] at
    that character, whatever follows it. *)
Theorem closing_on_empty_stack txt symbols pre ch post o :
  char_list txt = pre ++ ch :: post →
  for_loop symbols pre [] = Ok (Next []) →
  in_values symbols ch = false →
  symbols !! ch = Some o → o ≠ "" →
  for_loop symbols (pre ++ [ch]) [] = Ok (Return false)
  ∧ is_balanced txt symbols = Ok false.
Proof.
  intros Htxt Hpre Hv Hk Ho.
  assert (loop_body symbols ch [] = Ok (Return false)) as Hbody.
  { rewrite (loop_body_close_empty _ _ o) by done.
    by rewrite bool_decide_eq_true_2 by done. }
  split.
  - by rewrite (for_loop_snoc _ _ _ _ _ Hpre), Hbody.
  - apply is_balanced_false. left.
    rewrite Htxt, for_loop_app, Hpre. cbn. by rewrite Hbody.
Qed.

Lemma closing_on_empty_stack_witness :
  for_loop default_symbols (["("; ")"] ++ ["]"]) [] = Ok (Return false)
  ∧ is_balanced "()](" default_symbols = Ok false.
Proof.
  apply (closing_on_empty_stack "()](" default_symbols ["("; ")"] "]" ["("] "[").
  - reflexivity.
  - vm_compute. reflexivity.
  - vm_compute. reflexivity.
  - vm_compute. reflexivity.
  - discriminate.
Defined.

(** C3 as first stated, for every mapping, fails when the opening symbol
    listed for the closing symbol is the empty string: the value taken
    for "nothing popped" is then equal to it. *)
Lemma closing_on_empty_stack_counterexample :
  ¬ (∀ txt symbols pre ch post,
       char_list txt = pre ++ ch :: post →
       for_loop symbols pre [] = Ok (Next []) →
       in_values symbols ch = false →
       in_keys symbols ch = true →
       is_balanced txt symbols = Ok false).
Proof.
  intros H.
  specialize (H ")" {[ ")" := "" ]} [] ")" []).
  assert (is_balanced ")" {[ ")" := "" ]} = Ok true) as Htrue
    by (vm_compute; reflexivity).
  rewrite Htrue in H. discriminate H; vm_compute; reflexivity.
Qed.

(** C4. For a character that is both an opening and a closing symbol, one
    iteration does both things, pushing first: the closing check pops the
    character just pushed and compares it with the opening symbol listed
    for it, so the iteration either leaves the stack as it was or returns
    [False]; it never ends with the character left on the stack, as it
    would if the closing check were skipped. *)
Theorem dual_role_both_checks symbols ch o stack :
  in_values symbols ch = true → symbols !! ch = Some o →
  loop_body symbols ch stack =
    Ok (if bool_decide (ch = o) then Next stack else Return false)
  ∧ loop_body symbols ch stack ≠ Ok (Next (append stack ch)).
Proof.
  intros Hv Hk. rewrite (loop_body_dual _ _ o) by done. split.
  - by repeat case_bool_decide.
  - case_bool_decide; [done|]. intros [= Heq].
    apply (f_equal length) in Heq. unfold append in Heq.
    rewrite length_app in Heq. cbn in Heq. lia.
Qed.

Lemma dual_role_both_checks_witness :
  loop_body {[ "|" := "|" ]} "|" ["|"] =
    Ok (if bool_decide ("|" = "|") then Next ["|"] else Return false)
  ∧ loop_body {[ "|" := "|" ]} "|" ["|"] ≠ Ok (Next (append ["|"] "|")).
Proof.
  apply (dual_role_both_checks {[ "|" := "|" ]} "|" "|" ["|"]).
  - vm_compute. reflexivity.
  - vm_compute. reflexivity.
Defined.

(** C6. A text made only of characters that are neither opening nor
    closing symbols is balanced; so is the empty text. *)
Theorem plain_text_balanced txt symbols :
  Forall (λ ch, in_values symbols ch = false ∧ in_keys symbols ch = false)
         (char_list txt) →
  is_balanced txt symbols = Ok true ∧ is_balanced "" symbols = Ok true.
Proof.
  intros Hplain. split; [|done].
  apply is_balanced_true.
  induction Hplain as [|ch chars [Hv Hk] _ IH]; [done|].
  cbn. by rewrite loop_body_plain by done.
Qed.

Lemma plain_text_balanced_witness :
  is_balanced "abc 123" default_symbols = Ok true
  ∧ is_balanced "" default_symbols = Ok true.
Proof.
  apply (plain_text_balanced "abc 123" default_symbols).
  decide_by_vm.
Defined.

(** C7. [is_balanced] raises nothing: no iteration of the loop raises,
    [symbols[ch]] and [stack.pop()] being guarded by their tests, and
    every text and mapping give a boolean. *)
Theorem is_balanced_total txt symbols :
  (∀ ch stack, ∃ r, loop_body symbols ch stack = Ok r)
  ∧ ∃ b, is_balanced txt symbols = Ok b.
Proof.
  split; [apply loop_body_total|].
  unfold is_balanced.
  destruct (for_loop_total symbols (char_list txt) []) as [[stack|b] ->];
    cbn; eauto.
Qed.

(** C10. Balanced texts are closed under concatenation. *)
Theorem is_balanced_concat a b symbols :
  is_balanced a symbols = Ok true → is_balanced b symbols = Ok true →
  is_balanced (a +:+ b) symbols = Ok true.
Proof.
  rewrite !is_balanced_true. intros Ha Hb.
  by rewrite char_list_app, for_loop_app, Ha.
Qed.

Lemma is_balanced_concat_witness :
  is_balanced ("(a)" +:+ "[]{}") default_symbols = Ok true.
Proof.
  apply (is_balanced_concat "(a)" "[]{}" default_symbols).
  - vm_compute. reflexivity.
  - vm_compute. reflexivity.
Defined.

Lemma default_symbols_disjoint : disjoint_roles default_symbols.
Proof. decide_by_vm. Qed.

Lemma char_list_of_list l :
  char_list (string_of_list_ascii l) = map (λ c, String c "") l.
Proof. induction l as [|c l IH]; [done|]. cbn. by rewrite IH. Qed.

Lemma char_list_to_list s :
  char_list s = map (λ c, String c "") (list_ascii_of_string s).
Proof. induction s as [|c s IH]; [done|]. cbn. by rewrite IH. Qed.

Lemma flip_closes c :
  in_values default_symbols (String c "") = true →
  default_symbols !! String (flip c) "" = Some (String c "").
Proof.
  intros H.
  destruct c as [[] [] [] [] [] [] [] []];
    vm_compute in H; try discriminate H; vm_compute; reflexivity.
Qed.

Lemma reverse_and_flip_run l stack :
  Forall (λ c, in_values default_symbols (String c "") = true) l →
  for_loop default_symbols
    (map (λ c, String c "") l ++ map (λ c, String c "") (map flip (rev l)))
    stack = Ok (Next stack).
Proof.
  intros Hl. revert stack.
  induction Hl as [|c l Hc _ IH]; intros stack; [done|].
  cbn [map rev]. rewrite !map_app, app_assoc. cbn.
  rewrite (loop_body_open _ default_symbols_disjoint) by done. cbn.
  rewrite for_loop_app, IH. cbn.
  by rewrite (loop_body_match _ default_symbols_disjoint _ (String c ""))
    by auto using flip_closes.
Qed.

(** C5. For a string [s] of opening symbols of the default mapping,
    [s] followed by its closing symbols in reverse order is balanced. *)
Theorem reverse_and_flip_balanced s :
  Forall (λ ch, in_values default_symbols ch = true) (char_list s) →
  is_balanced (s +:+ reverse_and_flip s) default_symbols = Ok true.
Proof.
  intros Hs. apply is_balanced_true.
  unfold reverse_and_flip.
  rewrite char_list_app, char_list_of_list, char_list_to_list.
  apply reverse_and_flip_run.
  rewrite char_list_to_list in Hs. by apply Forall_fmap in Hs.
Qed.

Lemma reverse_and_flip_balanced_witness :
  is_balanced ("([{(" +:+ reverse_and_flip "([{(") default_symbols = Ok true.
Proof.
  apply (reverse_and_flip_balanced "([{(").
  decide_by_vm.
Defined.

Lemma replace_newline s : replace newline "" s = remove_char (ascii_of_nat 10) s.
Proof.
  unfold replace. induction s as [|c s IH]; [done|].
  cbn [replace_from remove_char]. unfold newline at 1. cbn [String.prefix].
  destruct (ascii_dec (ascii_of_nat 10) c) as [<-|Hne].
  - rewrite Ascii.eqb_refl. destruct s; cbn; apply IH.
  - rewrite (proj2 (Ascii.eqb_neq c (ascii_of_nat 10))) by congruence.
    by rewrite IH.
Qed.

Lemma replace_END_here rest :
  replace "END" "" ("END" +:+ rest) = replace "END" "" rest.
Proof. by destruct rest. Qed.

Lemma append_cons c s t : String c s +:+ t = String c (s +:+ t).
Proof. reflexivity. Qed.

Lemma prefix_cons a s1 b s2 :
  String.prefix (String a s1) (String b s2) =
    if ascii_dec a b then String.prefix s1 s2 else false.
Proof. reflexivity. Qed.

Lemma prefix_nil s : String.prefix "" s = true.
Proof. by destruct s. Qed.

Lemma occurs_cons old c s :
  occurs old (String c s) = false →
  String.prefix old (String c s) = false ∧ occurs old s = false.
Proof. cbn [occurs]. apply orb_false_elim. Qed.

Lemma prefix_END_app piece rest :
  occurs "END" piece = false →
  piece ≠ "" →
  String.prefix "END" (piece +:+ "END" +:+ rest) = false.
Proof.
  intros Hfree Hne.
  destruct piece as [|c1 piece]; [done|].
  apply occurs_cons in Hfree as [Hhere _].
  rewrite append_cons. rewrite prefix_cons in Hhere |- *.
  destruct (ascii_dec "E" c1) as [_|]; [|done].
  destruct piece as [|c2 piece]; [done|].
  rewrite append_cons. rewrite prefix_cons in Hhere |- *.
  destruct (ascii_dec "N" c2) as [_|]; [|done].
  destruct piece as [|c3 piece]; [done|].
  rewrite append_cons. rewrite prefix_cons in Hhere |- *.
  destruct (ascii_dec "D" c3) as [_|]; [|done].
  by rewrite prefix_nil in Hhere.
Qed.

Lemma occurs_tail old c s : occurs old (String c s) = false → occurs old s = false.
Proof. by intros [_ ?]%occurs_cons. Qed.

Lemma replace_END_split piece rest :
  occurs "END" piece = false →
  replace "END" "" (piece +:+ "END" +:+ rest) = piece +:+ replace "END" "" rest.
Proof.
  induction piece as [|c piece IH]; intros Hfree; [apply replace_END_here|].
  pose proof (prefix_END_app (String c piece) rest Hfree) as Hhere.
  unfold replace in *. rewrite (append_cons c piece) in *.
  cbn [replace_from]. rewrite Hhere by done.
  rewrite (append_cons c piece). f_equal. apply IH. by eapply occurs_tail.
Qed.

Lemma replace_END_free s : occurs "END" s = false → replace "END" "" s = s.
Proof.
  induction s as [|c s IH]; intros Hfree; [done|].
  unfold replace. cbn [replace_from].
  apply occurs_cons in Hfree as [-> Hfree].
  f_equal. by apply IH.
Qed.

Lemma replace_join_END pieces last :
  Forall (λ piece, occurs "END" piece = false) pieces →
  occurs "END" last = false →
  replace "END" "" (join_END pieces last) = foldr String.append last pieces.
Proof.
  intros Hpieces Hlast. unfold join_END.
  induction Hpieces as [|piece pieces Hp _ IH]; cbn [foldr].
  - by apply replace_END_free.
  - by rewrite replace_END_split, IH.
Qed.

Lemma prefix_split a b :
  String.prefix a b = true → ∃ rest, b = a +:+ rest.
Proof.
  revert b. induction a as [|c a IH]; intros b Hp; [by exists b|].
  destruct b as [|c' b]; [done|]. rewrite prefix_cons in Hp.
  destruct (ascii_dec c c') as [<-|]; [|done].
  destruct (IH _ Hp) as [rest ->]. by exists rest.
Qed.

Lemma prefix_app a b rest :
  String.prefix a b = true → String.prefix a (b +:+ rest) = true.
Proof.
  revert b. induction a as [|c a IH]; intros b Hp; [apply prefix_nil|].
  destruct b as [|c' b]; [done|]. rewrite append_cons, prefix_cons in *.
  destruct (ascii_dec c c'); [by apply IH|done].
Qed.

(** Every line is made of pieces without ["END"], each followed by
    ["END"], and of a last piece without ["END"]. *)
Lemma join_END_complete line :
  ∃ pieces last,
    line = join_END pieces last
    ∧ Forall (λ piece, occurs "END" piece = false) pieces
    ∧ occurs "END" last = false.
Proof.
  assert (∀ n line, String.length line ≤ n →
            ∃ pieces last,
              line = join_END pieces last
              ∧ Forall (λ piece, occurs "END" piece = false) pieces
              ∧ occurs "END" last = false) as Hall.
  { clear line. induction n as [|n IH]; intros line Hlen.
    - destruct line; [|cbn in Hlen; lia]. by exists [], "".
    - destruct line as [|c line]; [by exists [], ""|].
      destruct (String.prefix "END" (String c line)) eqn:Hp.
      + apply prefix_split in Hp as [rest Hrest].
        destruct (IH rest) as (pieces & last & -> & Hpieces & Hlast).
        { rewrite Hrest in Hlen.
          change ("END" +:+ rest)
            with (String "E" (String "N" (String "D" rest))) in Hlen.
          cbn [String.length] in Hlen. lia. }
        exists ("" :: pieces), last. rewrite Hrest. split; [done|].
        split; [by constructor|done].
      + destruct (IH line) as (pieces & last & -> & Hpieces & Hlast);
          [cbn in Hlen; lia|].
        destruct pieces as [|piece pieces].
        * exists [], (String c last). split; [done|]. split; [done|].
          cbn [occurs]. cbn [join_END foldr] in Hp. by rewrite Hp.
        * apply Forall_cons in Hpieces as [Hpiece Hpieces].
          exists (String c piece :: pieces), last. split; [done|].
          split; [|done]. constructor; [|done].
          cbn [occurs]. rewrite Hpiece, orb_false_r.
          destruct (String.prefix "END" (String c piece)) eqn:Hp'; [|done].
          apply (prefix_app _ _ ("END" +:+ join_END pieces last)) in Hp'.
          change (join_END (piece :: pieces) last)
            with (piece +:+ "END" +:+ join_END pieces last) in Hp.
          rewrite <- append_cons in Hp. congruence. }
  by apply (Hall (String.length line)).
Qed.

(** C9, amended. The text of a row is its source line with every
    occurrence of ["END"] removed, wherever it stands in the line, then
    every line feed removed, then the white space at both ends trimmed. *)
Theorem clean_line_removes_every_END pieces last :
  Forall (λ piece, occurs "END" piece = false) pieces →
  occurs "END" last = false →
  clean_line (join_END pieces last) =
    strip (remove_char (ascii_of_nat 10) (foldr String.append last pieces)).
Proof.
  intros Hpieces Hlast. unfold clean_line.
  by rewrite replace_join_END, replace_newline.
Qed.

Lemma clean_line_removes_every_END_witness :
  clean_line (join_END ["( "; " ) "] newline) =
    strip (remove_char (ascii_of_nat 10) (foldr String.append newline ["( "; " ) "])).
Proof.
  apply (clean_line_removes_every_END ["( "; " ) "] newline).
  - decide_by_vm.
  - vm_compute. reflexivity.
Defined.

(** C9 as first stated, with only a trailing ["END"] removed and any
    other occurrence kept, fails on a line that has ["END"] elsewhere. *)
Lemma clean_line_trailing_only_counterexample :
  ¬ (∀ body, occurs newline body = false →
       clean_line (body +:+ "END" +:+ newline) = strip body).
Proof.
  intros H. specialize (H "(END) " eq_refl). vm_compute in H. discriminate H.
Qed.

Lemma bool_decide_elem_of_cons_ne (x y : string) (l : list string) :
  y ≠ x → bool_decide (x ∈ y :: l) = bool_decide (x ∈ l).
Proof.
  intros Hne. apply bool_decide_ext. rewrite elem_of_cons.
  split; [intros [Heq|Hin]|intros Hin]; [by symmetry in Heq|done|by right].
Qed.

Section columns_facts.
Implicit Types (cs : columns) (key name : string) (keys names : list string).

Lemma lookup_layout names rows name :
  layout names rows !! name =
    if bool_decide (name ∈ names) then Some (cell name <$> rows) else None.
Proof.
  unfold layout. induction names as [|n names IH]; cbn.
  - by rewrite lookup_empty.
  - rewrite lookup_insert. destruct (decide (n = name)) as [->|Hn].
    + by rewrite bool_decide_eq_true_2 by left.
    + by rewrite IH, bool_decide_elem_of_cons_ne.
Qed.

Lemma init_columns_lookup keys cs key :
  init_columns keys cs !! key =
    match cs !! key with
    | Some col => Some col
    | None => if bool_decide (key ∈ keys) then Some [] else None
    end.
Proof.
  revert cs. induction keys as [|k0 keys IH]; intros cs; cbn [init_columns].
  - by destruct (cs !! key).
  - rewrite IH. destruct (in_keys cs k0) eqn:Hk0; cbn [negb].
    + destruct (cs !! key) eqn:Hkey; [done|].
      apply in_keys_true in Hk0 as [col Hcol].
      rewrite bool_decide_elem_of_cons_ne; [done|]. intros ->. congruence.
    + apply in_keys_false in Hk0. rewrite lookup_insert.
      destruct (decide (k0 = key)) as [->|Hne].
      * rewrite Hk0. by rewrite bool_decide_eq_true_2 by left.
      * by rewrite bool_decide_elem_of_cons_ne.
Qed.

Lemma parsed_getitem_cell p key text :
  key ∈ ["k"; "m"; "tr"; "subset"] →
  parsed_getitem p key = Ok (cell key (p, text)).
Proof.
  rewrite !elem_of_cons, elem_of_nil. by intros [->|[->|[->|[->|[]]]]].
Qed.

Lemma extend_fields_spec p n keys cs :
  (∀ key, key ∈ keys → is_Some (cs !! key) ∧ key ∈ ["k"; "m"; "tr"; "subset"]) →
  NoDup keys →
  ∃ cs', extend_fields p n keys cs = Ok cs'
    ∧ ∀ key, cs' !! key =
        if bool_decide (key ∈ keys)
        then (λ col, col ++ replicate n (cell key (p, ""))) <$> cs !! key
        else cs !! key.
Proof.
  revert cs. induction keys as [|k0 keys IH]; intros cs Hkeys Hnodup.
  - exists cs. split; [done|]. intros key.
    by rewrite bool_decide_eq_false_2 by apply not_elem_of_nil.
  - apply NoDup_cons in Hnodup as [Hk0 Hnodup].
    destruct (Hkeys k0) as [[col Hcol] Hfield]; [by left|].
    cbn [extend_fields]. unfold getitem. rewrite Hcol. cbn.
    rewrite (parsed_getitem_cell p k0 "") by done. cbn.
    destruct (IH (<[k0 := col ++ replicate n (cell k0 (p, ""))]> cs))
      as (cs' & -> & Hcs'); [|done|].
    { intros key Hkey. destruct (Hkeys key) as [Hsome ?]; [by right|].
      split; [|done]. rewrite lookup_insert. by case_decide. }
    exists cs'. split; [done|]. intros key. rewrite Hcs', lookup_insert.
    destruct (decide (k0 = key)) as [->|Hne].
    + rewrite (bool_decide_eq_false_2 (key ∈ keys)) by done.
      rewrite bool_decide_eq_true_2 by left. by rewrite Hcol.
    + by rewrite bool_decide_elem_of_cons_ne.
Qed.
End columns_facts.

Section fill_split_facts.
Variable fs : gmap string (list string).
Implicit Types (cs : columns) (p : parsed) (R : list (parsed * string)).

Lemma col_names_fields use_splits key :
  key ∈ col_names use_splits → key ∈ ["k"; "m"; "tr"; "subset"] ∧ key ≠ "text".
Proof.
  intros H.
  assert (key ∈ ["k"; "m"; "tr"; "subset"]) as Hfield.
  { destruct use_splits; unfold col_names in H; cbn [negb] in H; [|done].
    change (key ∈ ["k"; "m"; "tr"] ++ ["subset"]).
    apply elem_of_app. by left. }
  split; [done|]. intros ->.
  by apply (bool_decide_pack _) in Hfield.
Qed.

Lemma col_names_NoDup use_splits : NoDup (col_names use_splits).
Proof. destruct use_splits; cbn; by apply (bool_decide_unpack _). Qed.

Lemma cell_text p text : cell "text" (p, text) = VStr text.
Proof. done. Qed.

Lemma cell_field key p text :
  key ≠ "text" → cell key (p, text) = cell key (p, "").
Proof.
  intros Hne. unfold cell.
  by rewrite (proj2 (String.eqb_neq key "text")) by done.
Qed.

Lemma cell_field_rows key p (texts : list string) :
  key ≠ "text" →
  cell key <$> ((λ text, (p, text)) <$> texts) =
    replicate (length texts) (cell key (p, "")).
Proof.
  intros Hne. induction texts as [|text texts IH]; [done|].
  cbn. by rewrite IH, (cell_field key p text).
Qed.

Lemma cell_text_rows p (texts : list string) :
  cell "text" <$> ((λ text, (p, text)) <$> texts) = VStr <$> texts.
Proof. induction texts as [|text texts IH]; [done|]. cbn. by rewrite IH. Qed.

(** One file appends its rows to the columns it is given. *)
Lemma fill_split_spec use_splits p file_path lines cs R :
  fs !! file_path = Some lines →
  init_columns (col_names use_splits ++ ["text"]) cs =
    layout (col_names use_splits ++ ["text"]) R →
  fill_split fs use_splits p file_path cs =
    Ok (layout (col_names use_splits ++ ["text"])
          (R ++ ((λ text, (p, text)) <$> (clean_line <$> lines)))).
Proof.
  intros Hfs Hinit. unfold fill_split, readlines. rewrite Hfs, Hinit. cbn.
  unfold extend, getitem. rewrite lookup_layout.
  rewrite bool_decide_eq_true_2 by (apply elem_of_app; right; by left). cbn.
  set (cs1 := <["text" := _]> _).
  destruct (extend_fields_spec p (length (clean_line <$> lines))
              (col_names use_splits) cs1) as (cs' & -> & Hcs').
  { intros key Hkey. apply col_names_fields in Hkey as Hfield.
    destruct Hfield as [Hfield Hne]. split; [|done].
    unfold cs1. rewrite lookup_insert_ne by done. rewrite lookup_layout.
    rewrite bool_decide_eq_true_2 by (apply elem_of_app; by left). eauto. }
  { apply col_names_NoDup. }
  f_equal. apply map_eq. intros key. rewrite Hcs'. unfold cs1.
  rewrite lookup_insert, !lookup_layout.
  destruct (decide ("text" = key)) as [<-|Hne].
  - rewrite (bool_decide_eq_false_2 ("text" ∈ col_names use_splits))
      by (intros [_ ?]%col_names_fields; done).
    rewrite bool_decide_eq_true_2 by (apply elem_of_app; right; by left).
    by rewrite fmap_app, cell_text_rows.
  - rewrite (bool_decide_ext (key ∈ col_names use_splits ++ ["text"])
               (key ∈ col_names use_splits)).
    2:{ rewrite elem_of_app, list_elem_of_singleton. split; [|by left].
        by intros [?|?]. }
    case_bool_decide; [|done]. cbn.
    by rewrite fmap_app, cell_field_rows by (intros ->; done).
Qed.

Lemma init_columns_empty names : init_columns names ∅ = layout names [].
Proof.
  apply map_eq. intros key.
  by rewrite init_columns_lookup, lookup_empty, lookup_layout.
Qed.

Lemma init_columns_layout names R : init_columns names (layout names R) = layout names R.
Proof.
  apply map_eq. intros key. rewrite init_columns_lookup, lookup_layout.
  by case_bool_decide.
Qed.
End fill_split_facts.

Section loader_facts.
Variable basename : string → string.
Variable parse : string → option parsed.
Variable fs : gmap string (list string).
Implicit Types (files processed : list string) (p : parsed) (s : string).

Local Abbreviation rows_of_file := (file_rows basename parse fs).
Local Abbreviation rows_of_files := (table_rows basename parse fs).
Local Abbreviation subsets_of := (subsets basename parse).
Local Abbreviation can_load := (loadable basename parse fs).
Local Abbreviation rows_for := (rows_in basename parse fs).
Local Abbreviation tables_of := (splits_of basename parse fs).

Lemma table_rows_snoc processed file_path :
  rows_of_files (processed ++ [file_path]) = rows_of_files processed ++ rows_of_file file_path.
Proof.
  unfold table_rows. rewrite bind_app. cbn. by rewrite app_nil_r.
Qed.

Lemma file_rows_loadable file_path p lines :
  parse (basename file_path) = Some p → fs !! file_path = Some lines →
  rows_of_file file_path = (λ text, (p, text)) <$> (clean_line <$> lines).
Proof.
  intros Hp Hl. unfold file_rows. rewrite Hp, Hl.
  by rewrite <- list_fmap_compose.
Qed.

Lemma subsets_snoc processed file_path p :
  parse (basename file_path) = Some p →
  subsets_of (processed ++ [file_path]) = subsets_of processed ++ [parsed_subset p].
Proof.
  intros Hp. unfold subsets. rewrite omap_app. cbn. by rewrite Hp.
Qed.

Lemma filter_rows_same p (texts : list string) :
  filter (λ r : parsed * string, parsed_subset r.1 = parsed_subset p)
    ((λ text, (p, text)) <$> texts) = (λ text, (p, text)) <$> texts.
Proof.
  induction texts as [|text texts IH]; [done|].
  rewrite fmap_cons, filter_cons_True by done. by rewrite IH.
Qed.

Lemma filter_rows_other p s (texts : list string) :
  parsed_subset p ≠ s →
  filter (λ r : parsed * string, parsed_subset r.1 = s)
    ((λ text, (p, text)) <$> texts) = [].
Proof.
  intros Hne. induction texts as [|text texts IH]; [done|].
  by rewrite fmap_cons, filter_cons_False by done.
Qed.

Lemma file_rows_subset file_path s :
  (∀ p, parse (basename file_path) = Some p → parsed_subset p ≠ s) →
  filter (λ r : parsed * string, parsed_subset r.1 = s) (rows_of_file file_path) = [].
Proof.
  intros Hs.
  destruct (parse (basename file_path)) as [p|] eqn:Hp;
    [|by unfold file_rows; rewrite Hp].
  destruct (fs !! file_path) as [lines|] eqn:Hl;
    [|by unfold file_rows; rewrite Hp, Hl].
  rewrite (file_rows_loadable _ p lines) by done.
  apply filter_rows_other. by apply Hs.
Qed.

Lemma rows_in_not_subset files s : s ∉ subsets_of files → rows_for files s = [].
Proof.
  unfold rows_in, table_rows, subsets.
  induction files as [|file_path files IH]; intros Hs; [done|].
  cbn in Hs |- *. rewrite filter_app.
  rewrite file_rows_subset, IH; [done| |].
  - intros Hin. apply Hs.
    destruct (parse (basename file_path)); cbn; [by right|done].
  - intros p Hp Heq. apply Hs. rewrite Hp. cbn. rewrite Heq. by left.
Qed.

Lemma rows_in_snoc processed file_path p lines s :
  parse (basename file_path) = Some p → fs !! file_path = Some lines →
  rows_for (processed ++ [file_path]) s =
    rows_for processed s ++
    (if decide (parsed_subset p = s)
     then (λ text, (p, text)) <$> (clean_line <$> lines) else []).
Proof.
  intros Hp Hl. unfold rows_in.
  rewrite table_rows_snoc, filter_app, (file_rows_loadable _ p lines) by done.
  case_decide as Hs.
  - subst s. by rewrite filter_rows_same.
  - by rewrite filter_rows_other.
Qed.

(** *** Without splits *)

Lemma file_body_flat processed file_path cs :
  can_load file_path →
  init_columns (col_names false ++ ["text"]) cs =
    layout (col_names false ++ ["text"]) (rows_of_files processed) →
  file_body basename parse fs false file_path cs =
    Ok (layout (col_names false ++ ["text"])
          (rows_of_files (processed ++ [file_path]))).
Proof.
  intros [[p Hp] [lines Hl]] Hinit. unfold file_body. rewrite Hp. cbn.
  rewrite (fill_split_spec fs false p file_path lines cs _ Hl Hinit).
  by rewrite table_rows_snoc, (file_rows_loadable _ p lines).
Qed.

Lemma for_files_flat files processed cs :
  Forall can_load files →
  init_columns (col_names false ++ ["text"]) cs =
    layout (col_names false ++ ["text"]) (rows_of_files processed) →
  for_files basename parse fs false files cs =
    Ok (match files with
        | [] => cs
        | _ => layout (col_names false ++ ["text"]) (rows_of_files (processed ++ files))
        end).
Proof.
  intros Hfiles. revert processed cs.
  induction Hfiles as [|file_path files Hfile _ IH]; intros processed cs Hinit;
    [done|].
  cbn [for_files]. rewrite (file_body_flat processed), bind_Ok by done.
  rewrite (IH (processed ++ [file_path])) by apply init_columns_layout.
  rewrite <- app_assoc. by destruct files.
Qed.

(** *** With splits *)

Lemma file_body_splits processed file_path dd :
  can_load file_path → tables_of processed dd →
  ∃ dd', file_body basename parse fs true file_path dd = Ok dd'
         ∧ tables_of (processed ++ [file_path]) dd'.
Proof.
  intros [[p Hp] [lines Hl]] Hdd. unfold file_body. rewrite Hp. cbn.
  set (s0 := parsed_subset p).
  set (dd1 := if negb (in_keys dd s0) then <[s0 := ∅]> dd else dd).
  assert (∃ cur, dd1 !! s0 = Some cur
            ∧ init_columns (col_names true ++ ["text"]) cur =
                layout (col_names true ++ ["text"]) (rows_for processed s0))
    as (cur & Hcur & Hinit).
  { unfold dd1. pose proof (Hdd s0) as Hs0.
    destruct (in_keys dd s0) eqn:Hin; cbn [negb].
    - apply in_keys_true in Hin as [cur Hcur]. exists cur. split; [done|].
      rewrite Hcur in Hs0. case_bool_decide; [|done].
      injection Hs0 as ->. apply init_columns_layout.
    - apply in_keys_false in Hin. exists ∅. split; [by rewrite lookup_insert_eq|].
      rewrite Hin in Hs0. case_bool_decide as Hsub; [done|].
      rewrite rows_in_not_subset by done. apply init_columns_empty. }
  unfold getitem. rewrite Hcur. cbn.
  rewrite (fill_split_spec fs true p file_path lines cur _ Hl Hinit). cbn.
  eexists. split; [done|]. intros s.
  rewrite (subsets_snoc _ _ p), (rows_in_snoc _ _ p lines) by done.
  rewrite lookup_insert. fold s0. destruct (decide (s0 = s)) as [<-|Hne].
  - rewrite bool_decide_eq_true_2; [done|].
    apply elem_of_app. right. by left.
  - rewrite app_nil_r.
    assert (dd1 !! s = dd !! s) as ->.
    { unfold dd1. destruct (negb (in_keys dd s0)); [|done].
      by rewrite lookup_insert_ne. }
    rewrite Hdd. apply (f_equal (λ b : bool, if b then _ else _)).
    apply bool_decide_ext. rewrite elem_of_app, list_elem_of_singleton.
    split; [by left|]. by intros [?|?].
Qed.

Lemma for_files_splits files processed dd :
  Forall can_load files → tables_of processed dd →
  ∃ dd', for_files basename parse fs true files dd = Ok dd'
         ∧ tables_of (processed ++ files) dd'.
Proof.
  intros Hfiles. revert processed dd.
  induction Hfiles as [|file_path files Hfile _ IH]; intros processed dd Hdd.
  - exists dd. by rewrite app_nil_r.
  - destruct (file_body_splits processed file_path dd) as (dd1 & Hbody & Hdd1);
      [done..|].
    destruct (IH _ _ Hdd1) as (dd' & Hrest & Hdd').
    exists dd'. cbn [for_files]. rewrite Hbody. cbn.
    rewrite <- app_assoc in Hdd'. by split.
Qed.

Lemma table_rows_length files :
  Forall can_load files →
  length (rows_of_files files) = line_count fs files.
Proof.
  unfold table_rows, line_count.
  induction 1 as [|file_path files [[p Hp] [lines Hl]] _ IH]; [done|].
  cbn. rewrite length_app, IH. f_equal.
  unfold file_rows. rewrite Hp, Hl. cbn. by rewrite length_fmap.
Qed.
End loader_facts.

Lemma num_rows_layout names rows :
  "text" ∈ names → num_rows (layout names rows) = length rows.
Proof.
  intros Hin. unfold num_rows.
  rewrite lookup_layout, bool_decide_eq_true_2 by done. cbn.
  by rewrite length_fmap.
Qed.

Lemma from_dict_Ok mapping table : from_dict mapping = Ok table → table = mapping.
Proof. unfold from_dict. case_bool_decide; congruence. Qed.

Lemma from_dict_fits mapping :
  from_dict mapping = Ok mapping
  ↔ map_Forall (λ _ col, Forall (λ v, cell_fits v = true) col) mapping.
Proof. unfold from_dict. case_bool_decide; split; (done || congruence). Qed.

Lemma from_dict_each_Ok items tables :
  from_dict_each items = Ok tables → tables = items.
Proof.
  revert tables. induction items as [|[split mapping] items IH]; intros tables;
    cbn [from_dict_each]; [congruence|].
  destruct (from_dict mapping) as [table|] eqn:Htable; [|done].
  apply from_dict_Ok in Htable as ->. rewrite bind_Ok.
  destruct (from_dict_each items) as [rest|]; [|done].
  rewrite bind_Ok. intros [= <-]. by rewrite (IH rest).
Qed.

(** A call that returns has left the loop with the columns of what it
    returns. *)
Lemma dyck2dataset_flat_inv basename parse fs files table :
  dyck2dataset basename parse fs files false = Ok (Dataset table) →
  for_files basename parse fs false files (∅ : columns) = Ok table.
Proof.
  unfold dyck2dataset.
  destruct (for_files basename parse fs false files (∅ : columns)) as [dd|];
    [|done].
  rewrite bind_Ok. destruct (from_dict dd) as [t|] eqn:Ht; [|done].
  apply from_dict_Ok in Ht as ->. rewrite bind_Ok. by intros [= <-].
Qed.

(** What a call returns went through the conversion: its cells fit. *)
Lemma dyck2dataset_flat_fits basename parse fs files table :
  dyck2dataset basename parse fs files false = Ok (Dataset table) →
  from_dict table = Ok table.
Proof.
  unfold dyck2dataset.
  destruct (for_files basename parse fs false files (∅ : columns)) as [dd|];
    [|done].
  rewrite bind_Ok. destruct (from_dict dd) as [t|] eqn:Ht; [|done].
  pose proof (from_dict_Ok _ _ Ht) as ->. rewrite bind_Ok. by intros [= <-].
Qed.

Lemma dyck2dataset_splits_inv basename parse fs files splits :
  dyck2dataset basename parse fs files true = Ok (DatasetDict splits) →
  for_files basename parse fs true files (∅ : gmap string columns) = Ok splits.
Proof.
  unfold dyck2dataset.
  destruct (for_files basename parse fs true files (∅ : gmap string columns))
    as [dd|]; [|done].
  rewrite bind_Ok.
  destruct (from_dict_each (map_to_list dd)) as [ts|] eqn:Hts; [|done].
  apply from_dict_each_Ok in Hts as ->. rewrite bind_Ok.
  intros [= <-]. by rewrite list_to_map_to_list.
Qed.

(** C8, amended. For files whose names follow the pattern and that can be
    read, the dataset that the call returns has one row for every line
    of the input, empty lines included: without splits, the table lists
    for each file, in turn, one row per line, carrying the [k], [m],
    [tr] and [subset] of the file name and the cleaned text of the line;
    with splits, the table of a subset lists such rows, without
    [subset], for the files of that subset. *)
Theorem dyck2dataset_rows basename parse fs files :
  Forall (loadable basename parse fs) files →
  (∀ table,
     dyck2dataset basename parse fs files false = Ok (Dataset table) →
     num_rows table = line_count fs files
     ∧ (files ≠ [] →
        table = layout ["k"; "m"; "tr"; "subset"; "text"]
                  (table_rows basename parse fs files)))
  ∧ (∀ splits,
       dyck2dataset basename parse fs files true = Ok (DatasetDict splits) →
       ∀ s, splits !! s =
         if bool_decide (s ∈ subsets basename parse files)
         then Some (layout ["k"; "m"; "tr"; "text"]
                      (filter (λ r, parsed_subset r.1 = s)
                         (table_rows basename parse fs files)))
         else None).
Proof.
  intros Hfiles. split.
  - intros table Hret%dyck2dataset_flat_inv.
    rewrite (for_files_flat basename parse fs files [] ∅ Hfiles) in Hret
      by apply init_columns_empty.
    injection Hret as <-. split.
    + destruct files as [|file_path files]; [done|].
      rewrite num_rows_layout by (by apply (bool_decide_unpack _)).
      by apply table_rows_length.
    + by destruct files.
  - intros splits Hret%dyck2dataset_splits_inv.
    destruct (for_files_splits basename parse fs files [] ∅ Hfiles)
      as (dd & Hdd & Hspec).
    { intros s. by rewrite lookup_empty. }
    rewrite Hdd in Hret. injection Hret as <-. apply Hspec.
Qed.

Lemma dyck2dataset_rows_witness :
  let parse := λ _ : string, Some (Parsed 128 10 "2000000" "train") in
  let fs : gmap string (list string) :=
    {[ "k128_m10_tr2000000.train" := ["( [ ] ) END" +:+ newline; newline] ]} in
  let files := ["k128_m10_tr2000000.train"] in
  (∀ table,
     dyck2dataset id parse fs files false = Ok (Dataset table) →
     num_rows table = line_count fs files
     ∧ (files ≠ [] →
        table = layout ["k"; "m"; "tr"; "subset"; "text"]
                  (table_rows id parse fs files)))
  ∧ (∀ splits,
       dyck2dataset id parse fs files true = Ok (DatasetDict splits) →
       ∀ s, splits !! s =
         if bool_decide (s ∈ subsets id parse files)
         then Some (layout ["k"; "m"; "tr"; "text"]
                      (filter (λ r, parsed_subset r.1 = s)
                         (table_rows id parse fs files)))
         else None).
Proof.
  intros parse fs files.
  apply (dyck2dataset_rows id parse fs files).
  decide_by_vm.
Defined.

(** C8 as first stated, with no row for a line that is empty or becomes
    empty, fails on a file that has such a line: the call returns, and
    the line gives a row whose text is empty. *)
Lemma dyck2dataset_rows_counterexample :
  ¬ (∀ basename parse fs files table,
       Forall (loadable basename parse fs) files →
       dyck2dataset basename parse fs files false = Ok (Dataset table) →
       num_rows table = nonempty_line_count fs files).
Proof.
  intros H.
  destruct (dyck2dataset id (λ _, Some (Parsed 128 10 "2000000" "train"))
              {[ "k128_m10_tr2000000.train" := ["( [ ] ) END" +:+ newline; newline] ]}
              ["k128_m10_tr2000000.train"] false) as [[table|splits]|e] eqn:Hret.
  - apply H in Hret as Hrows; [|decide_by_vm].
    vm_compute in Hret. injection Hret as <-.
    vm_compute in Hrows. discriminate Hrows.
  - vm_compute in Hret. discriminate Hret.
  - vm_compute in Hret. discriminate Hret.
Qed.

(** ** Further properties of [is_balanced] *)

Section counting.
Context (symbols : gmap string string).
Implicit Types (ch : string) (chars stack : list string).

Lemma count_opening_cons ch chars :
  count_opening symbols (ch :: chars) =
    (if in_values symbols ch then 1 else 0) + count_opening symbols chars.
Proof.
  unfold count_opening. rewrite filter_cons.
  destruct (in_values symbols ch); by case_decide.
Qed.

Lemma count_closing_cons ch chars :
  count_closing symbols (ch :: chars) =
    (if in_keys symbols ch then 1 else 0) + count_closing symbols chars.
Proof.
  unfold count_closing. rewrite filter_cons.
  destruct (in_keys symbols ch); by case_decide.
Qed.

Lemma count_opening_le chars : count_opening symbols chars ≤ length chars.
Proof. apply length_filter. Qed.

(** One iteration pushes at most one item. *)
Lemma loop_body_length ch stack stack' :
  loop_body symbols ch stack = Ok (Next stack') →
  length stack' ≤ length stack + (if in_values symbols ch then 1 else 0).
Proof.
  destruct (in_values symbols ch) eqn:Hv, (symbols !! ch) as [o|] eqn:Hk.
  - rewrite (loop_body_dual _ _ o) by done.
    case_bool_decide; intros [= <-]. lia.
  - rewrite loop_body_push by (done || by apply in_keys_false).
    intros [= <-]. rewrite length_app. cbn. lia.
  - destruct stack as [|t stack _] using rev_ind.
    + rewrite (loop_body_close_empty _ _ o) by done.
      case_bool_decide; intros [= <-]. cbn. lia.
    + rewrite (loop_body_close_top _ _ o) by done.
      case_bool_decide; intros [= <-]. rewrite length_app. cbn. lia.
  - rewrite loop_body_plain by (done || by apply in_keys_false).
    intros [= <-]. lia.
Qed.

Lemma for_loop_length chars stack stack' :
  for_loop symbols chars stack = Ok (Next stack') →
  length stack' ≤ length stack + count_opening symbols chars.
Proof.
  revert stack. induction chars as [|ch chars IH]; intros stack; cbn [for_loop].
  - intros [= <-]. unfold count_opening. cbn. lia.
  - destruct (loop_body symbols ch stack) as [[mid|?]|?] eqn:Hbody;
      [rewrite bind_Ok|done..].
    intros Hrest. apply loop_body_length in Hbody. apply IH in Hrest.
    rewrite count_opening_cons. lia.
Qed.

(** When the empty string is not an opening symbol, an iteration that
    goes on has popped for every closing symbol. *)
Lemma loop_body_count ch stack stack' :
  no_empty_opening symbols →
  loop_body symbols ch stack = Ok (Next stack') →
  length stack' + (if in_keys symbols ch then 1 else 0) =
    length stack + (if in_values symbols ch then 1 else 0).
Proof.
  intros Hno.
  destruct (in_values symbols ch) eqn:Hv, (symbols !! ch) as [o|] eqn:Hk.
  - rewrite (loop_body_dual _ _ o), (in_keys_lookup _ _ _ Hk) by done.
    case_bool_decide; intros [= <-]. lia.
  - rewrite loop_body_push by (done || by apply in_keys_false).
    rewrite (proj2 (in_keys_false _ _) Hk).
    intros [= <-]. rewrite length_app. cbn. lia.
  - rewrite (in_keys_lookup _ _ _ Hk).
    destruct stack as [|t stack _] using rev_ind.
    + rewrite (loop_body_close_empty _ _ o) by done.
      case_bool_decide as Ho; intros [= <-]. subst o.
      apply in_values_lookup in Hk. unfold no_empty_opening in Hno. congruence.
    + rewrite (loop_body_close_top _ _ o) by done.
      case_bool_decide; intros [= <-]. rewrite length_app. cbn. lia.
  - rewrite loop_body_plain by (done || by apply in_keys_false).
    rewrite (proj2 (in_keys_false _ _) Hk). intros [= <-]. lia.
Qed.

Lemma for_loop_count chars stack stack' :
  no_empty_opening symbols →
  for_loop symbols chars stack = Ok (Next stack') →
  length stack' + count_closing symbols chars =
    length stack + count_opening symbols chars.
Proof.
  intros Hno. revert stack. induction chars as [|ch chars IH]; intros stack; cbn [for_loop].
  - intros [= <-]. unfold count_opening, count_closing. cbn. lia.
  - destruct (loop_body symbols ch stack) as [[mid|?]|?] eqn:Hbody;
      [rewrite bind_Ok|done..].
    intros Hrest. apply loop_body_count in Hbody; [|done]. apply IH in Hrest.
    rewrite count_opening_cons, count_closing_cons. lia.
Qed.
End counting.

Lemma is_balanced_iff_Balanced_witness :
  is_balanced "([x])" default_symbols = Ok true
  ↔ Balanced default_symbols (char_list "([x])").
Proof.
  apply (is_balanced_iff_Balanced "([x])" default_symbols).
  - decide_by_vm.
  - vm_compute. reflexivity.
Defined.

Lemma is_balanced_Balanced txt symbols :
  disjoint_roles symbols → no_empty_opening symbols →
  is_balanced txt symbols = Ok true → Balanced symbols (char_list txt).
Proof.
  intros Hdisj Hno Htrue. apply is_balanced_true in Htrue.
  apply run_Shape in Htrue; [|done]. by eapply Shape_no_free_Balanced.
Qed.

(** X2. When the empty string is not an opening symbol, a balanced text
    has as many closing as opening symbols, and none of its prefixes has
    more closing than opening symbols. *)
Theorem balanced_counts txt symbols :
  no_empty_opening symbols →
  is_balanced txt symbols = Ok true →
  count_opening symbols (char_list txt) = count_closing symbols (char_list txt)
  ∧ ∀ n, count_closing symbols (take n (char_list txt))
         ≤ count_opening symbols (take n (char_list txt)).
Proof.
  intros Hno Htrue. apply is_balanced_true in Htrue. split.
  - apply for_loop_count in Htrue; [|done]. cbn in Htrue. lia.
  - intros n. rewrite <- (take_drop n (char_list txt)) in Htrue.
    apply for_loop_prefix in Htrue as (mid & Hmid & _).
    apply for_loop_count in Hmid; [|done]. cbn in Hmid. lia.
Qed.

Lemma balanced_counts_witness :
  count_opening default_symbols (char_list "([x]){}")
    = count_closing default_symbols (char_list "([x]){}")
  ∧ ∀ n, count_closing default_symbols (take n (char_list "([x]){}"))
         ≤ count_opening default_symbols (take n (char_list "([x]){}")).
Proof.
  apply (balanced_counts "([x]){}" default_symbols).
  - vm_compute. reflexivity.
  - vm_compute. reflexivity.
Defined.

(** X3. For every mapping, the stack after [n] iterations holds no more
    items than there are opening symbols among the characters scanned,
    hence no more than [n]. *)
Theorem stack_bound txt symbols n stack :
  for_loop symbols (take n (char_list txt)) [] = Ok (Next stack) →
  length stack ≤ count_opening symbols (take n (char_list txt))
  ∧ length stack ≤ n.
Proof.
  intros Hrun. apply for_loop_length in Hrun. cbn in Hrun.
  pose proof (count_opening_le symbols (take n (char_list txt))) as Hle.
  rewrite length_take in Hle. lia.
Qed.

Lemma stack_bound_witness :
  length ["("; "["] ≤ count_opening default_symbols (take 5 (char_list "(a[{}"))
  ∧ length ["("; "["] ≤ 5.
Proof.
  apply (stack_bound "(a[{}" default_symbols 5 ["("; "["]).
  vm_compute. reflexivity.
Defined.

(** X4. If the scan reaches a closing symbol, not itself an opening
    symbol, while the top of the stack is not the opening symbol that
    the mapping lists for it, the loop returns [False] at that character,
    whatever follows. *)
Theorem closing_mismatch txt symbols pre ch post stack top o :
  char_list txt = pre ++ ch :: post →
  for_loop symbols pre [] = Ok (Next (stack ++ [top])) →
  in_values symbols ch = false →
  symbols !! ch = Some o → top ≠ o →
  for_loop symbols (pre ++ [ch]) [] = Ok (Return false)
  ∧ is_balanced txt symbols = Ok false.
Proof.
  intros Htxt Hpre Hv Hk Ho.
  assert (loop_body symbols ch (stack ++ [top]) = Ok (Return false)) as Hbody.
  { rewrite (loop_body_close_top _ _ o) by done.
    by rewrite bool_decide_eq_true_2 by done. }
  split.
  - by rewrite (for_loop_snoc _ _ _ _ _ Hpre), Hbody.
  - apply is_balanced_false. left.
    rewrite Htxt, for_loop_app, Hpre. cbn. by rewrite Hbody.
Qed.

Lemma closing_mismatch_witness :
  for_loop default_symbols (["("; "["] ++ [")"]) [] = Ok (Return false)
  ∧ is_balanced "([)]" default_symbols = Ok false.
Proof.
  apply (closing_mismatch "([)]" default_symbols ["("; "["] ")" ["]"] ["("] "[" "(").
  - reflexivity.
  - vm_compute. reflexivity.
  - vm_compute. reflexivity.
  - vm_compute. reflexivity.
  - discriminate.
Defined.

(** X5. A text that ends with an opening symbol that is not also a
    closing symbol is not balanced, whatever precedes it. *)
Theorem trailing_opening_unbalanced a c symbols :
  in_values symbols (String c "") = true →
  in_keys symbols (String c "") = false →
  is_balanced (a +:+ String c "") symbols = Ok false.
Proof.
  intros Hv Hk. apply is_balanced_false.
  rewrite char_list_app, for_loop_app.
  destruct (for_loop_total symbols (char_list a) []) as [[stack|b] Hrun];
    rewrite Hrun.
  - right. exists (stack ++ [String c ""]). split; [by destruct stack|].
    cbn. by rewrite loop_body_push by done.
  - left. by apply for_loop_Return in Hrun as ->.
Qed.

Lemma trailing_opening_unbalanced_witness :
  is_balanced ("()" +:+ String "[" "") default_symbols = Ok false.
Proof.
  apply (trailing_opening_unbalanced "()" "[" default_symbols).
  - vm_compute. reflexivity.
  - vm_compute. reflexivity.
Defined.

(** X6. A balanced text in front of another does not change the result
    for that other text. *)
Theorem balanced_prefix_neutral a b symbols :
  is_balanced a symbols = Ok true →
  is_balanced (a +:+ b) symbols = is_balanced b symbols.
Proof.
  intros Ha. apply is_balanced_true in Ha. unfold is_balanced.
  by rewrite char_list_app, for_loop_app, Ha.
Qed.

Lemma balanced_prefix_neutral_witness :
  is_balanced ("(a)" +:+ "[}") default_symbols = is_balanced "[}" default_symbols.
Proof.
  apply (balanced_prefix_neutral "(a)" "[}" default_symbols).
  vm_compute. reflexivity.
Defined.

(** X7. Under a mapping whose closing symbols are not opening symbols
    and that does not list the empty string as an opening symbol, a
    balanced text behind another does not change the result for that
    other text. *)
Theorem balanced_suffix_neutral a b symbols :
  disjoint_roles symbols → no_empty_opening symbols →
  is_balanced b symbols = Ok true →
  is_balanced (a +:+ b) symbols = is_balanced a symbols.
Proof.
  intros Hdisj Hno Hb. apply is_balanced_Balanced in Hb; [|done..].
  unfold is_balanced. rewrite char_list_app, for_loop_app.
  destruct (for_loop symbols (char_list a) []) as [[stack|?]|?]; [|done..].
  by rewrite Balanced_run.
Qed.

Lemma balanced_suffix_neutral_witness :
  is_balanced ("((" +:+ "[]") default_symbols = is_balanced "((" default_symbols.
Proof.
  apply (balanced_suffix_neutral "((" "[]" default_symbols).
  - decide_by_vm.
  - vm_compute. reflexivity.
  - vm_compute. reflexivity.
Defined.

(** X8. Under the same conditions on the mapping, a balanced text put
    between an opening symbol and a closing symbol that the mapping
    sends to it is balanced. *)
Theorem balanced_nesting a co cc symbols :
  disjoint_roles symbols → no_empty_opening symbols →
  symbols !! String cc "" = Some (String co "") →
  is_balanced a symbols = Ok true →
  is_balanced (String co (a +:+ String cc "")) symbols = Ok true.
Proof.
  intros Hdisj Hno Hc Ha. apply is_balanced_Balanced in Ha; [|done..].
  apply is_balanced_true. cbn [char_list]. rewrite char_list_app.
  apply Balanced_run; [done|].
  by apply (Balanced_pair symbols _ _ (String cc "") []); [|done|constructor].
Qed.

Lemma balanced_nesting_witness :
  is_balanced (String "{" ("(a)[]" +:+ String "}" "")) default_symbols = Ok true.
Proof.
  apply (balanced_nesting "(a)[]" "{" "}" default_symbols).
  - decide_by_vm.
  - vm_compute. reflexivity.
  - vm_compute. reflexivity.
  - vm_compute. reflexivity.
Defined.

(** ** Further properties of [clean_line] *)

Lemma append_nil_r s : s +:+ "" = s.
Proof. induction s as [|c s IH]; [done|]. by rewrite append_cons, IH. Qed.

Lemma remove_char_app c a b :
  remove_char c (a +:+ b) = remove_char c a +:+ remove_char c b.
Proof.
  induction a as [|c' a IH]; [done|]. rewrite append_cons. cbn [remove_char].
  destruct (Ascii.eqb c' c); [done|]. by rewrite append_cons, IH.
Qed.

Lemma remove_char_id c s : c ∉ list_ascii_of_string s → remove_char c s = s.
Proof.
  induction s as [|c' s IH]; [done|]. cbn. intros Hnot.
  apply not_elem_of_cons in Hnot as [Hne Hnot].
  rewrite (proj2 (Ascii.eqb_neq c' c)) by done. by rewrite IH.
Qed.

Lemma remove_char_gone c s : c ∉ list_ascii_of_string (remove_char c s).
Proof.
  induction s as [|c' s IH]; cbn; [apply not_elem_of_nil|].
  destruct (Ascii.eqb c' c) eqn:Heq; [done|].
  cbn. apply not_elem_of_cons. split; [|done].
  apply Ascii.eqb_neq in Heq. congruence.
Qed.

Lemma lstrip_elem_of c s :
  c ∈ list_ascii_of_string (lstrip s) → c ∈ list_ascii_of_string s.
Proof.
  induction s as [|c' s IH]; [done|]. cbn.
  destruct (isspace c'); [|done]. intros Hin. right. by apply IH.
Qed.

Lemma rstrip_elem_of c s :
  c ∈ list_ascii_of_string (rstrip s) → c ∈ list_ascii_of_string s.
Proof.
  induction s as [|c' s IH]; [done|]. cbn.
  destruct (rstrip s) as [|c'' s'].
  - destruct (isspace c'); cbn; [by intros ?%elem_of_nil|].
    intros ->%list_elem_of_singleton. by left.
  - cbn. intros [->|Hin]%elem_of_cons; [by left|]. right. by apply IH.
Qed.

Lemma lstrip_head c s :
  head (list_ascii_of_string (lstrip s)) = Some c → isspace c = false.
Proof.
  induction s as [|c' s IH]; [done|]. cbn.
  destruct (isspace c') eqn:Hc'; [done|]. cbn. congruence.
Qed.

Lemma lstrip_last c s :
  last (list_ascii_of_string (lstrip s)) = Some c →
  last (list_ascii_of_string s) = Some c.
Proof.
  induction s as [|c' s IH]; [done|]. cbn [lstrip].
  destruct (isspace c'); [|done]. intros Hlast.
  cbn [list_ascii_of_string]. rewrite last_cons. by rewrite (IH Hlast).
Qed.

Lemma rstrip_last c s :
  last (list_ascii_of_string (rstrip s)) = Some c → isspace c = false.
Proof.
  induction s as [|c' s IH]; [done|]. cbn [rstrip].
  destruct (rstrip s) as [|c'' s'].
  - destruct (isspace c') eqn:Hc'; cbn; [done|]. congruence.
  - cbn [list_ascii_of_string] in *. rewrite last_cons.
    destruct (last (c'' :: list_ascii_of_string s')) eqn:Hl;
      [|by apply last_None in Hl].
    intros [= ->]. by apply IH.
Qed.

(** X9. The text of a row has no line feed. *)
Theorem clean_line_no_newline line :
  ascii_of_nat 10 ∉ list_ascii_of_string (clean_line line).
Proof.
  unfold clean_line, strip. rewrite replace_newline.
  intros Hin. apply lstrip_elem_of, rstrip_elem_of in Hin.
  by apply remove_char_gone in Hin.
Qed.

(** X10. The text of a row neither begins nor ends with a white-space
    character. *)
Theorem clean_line_trimmed line c :
  head (list_ascii_of_string (clean_line line)) = Some c
  ∨ last (list_ascii_of_string (clean_line line)) = Some c →
  isspace c = false.
Proof.
  unfold clean_line, strip. intros [Hhead|Hlast].
  - by eapply lstrip_head.
  - apply lstrip_last in Hlast. by eapply rstrip_last.
Qed.

Lemma clean_line_trimmed_witness : isspace ")" = false.
Proof.
  apply (clean_line_trimmed ("  ( ) END  " +:+ newline) ")").
  right. vm_compute. reflexivity.
Defined.

(** X11. For a line made of a body without ["END"] and without line
    feed, followed by ["END"] and a line feed, the text of the row is
    the body with the white space at both ends trimmed. *)
Theorem clean_line_trailing_marker body :
  occurs "END" body = false →
  ascii_of_nat 10 ∉ list_ascii_of_string body →
  clean_line (body +:+ "END" +:+ newline) = strip body.
Proof.
  intros Hfree Hnl. unfold clean_line.
  rewrite replace_END_split by done.
  rewrite (replace_END_free newline) by done.
  rewrite replace_newline, remove_char_app, remove_char_id by done.
  by rewrite append_nil_r.
Qed.

Lemma clean_line_trailing_marker_witness :
  clean_line ("( [ ] ) " +:+ "END" +:+ newline) = strip "( [ ] ) ".
Proof.
  apply (clean_line_trailing_marker "( [ ] ) ").
  - vm_compute. reflexivity.
  - decide_by_vm.
Defined.

(** ** [clean_line] followed by [is_balanced] *)

Section skeleton.
Context (symbols : gmap string string).
Implicit Types (c : ascii) (s : string) (chars stack : list string).

Lemma structural_cons_plain ch chars :
  in_values symbols ch = false → in_keys symbols ch = false →
  structural symbols (ch :: chars) = structural symbols chars.
Proof.
  intros Hv Hk. unfold structural. rewrite filter_cons_False; [done|].
  intros [?|?]; congruence.
Qed.

Lemma structural_cons_symbol ch chars :
  in_values symbols ch = true ∨ in_keys symbols ch = true →
  structural symbols (ch :: chars) = ch :: structural symbols chars.
Proof. intros H. unfold structural. by rewrite filter_cons_True. Qed.

(** The scan sees only the opening and closing symbols. *)
Lemma for_loop_structural chars stack :
  for_loop symbols (structural symbols chars) stack = for_loop symbols chars stack.
Proof.
  revert stack. induction chars as [|ch chars IH]; intros stack; [done|].
  destruct (in_values symbols ch) eqn:Hv, (in_keys symbols ch) eqn:Hk;
    try (rewrite structural_cons_symbol by auto; cbn [for_loop];
         destruct (loop_body symbols ch stack) as [[mid|?]|?]; [|done..];
         rewrite !bind_Ok; apply IH).
  rewrite structural_cons_plain by done. cbn [for_loop].
  rewrite loop_body_plain, bind_Ok by done. apply IH.
Qed.

Lemma plain_char_spec c :
  plain_char symbols c = true →
  in_values symbols (String c "") = false ∧ in_keys symbols (String c "") = false.
Proof.
  unfold plain_char. intros [Hv Hk]%andb_true_iff.
  by apply negb_true_iff in Hv, Hk.
Qed.

Lemma clean_line_safe_plain c :
  clean_line_safe symbols = true → removable c = true →
  plain_char symbols c = true.
Proof.
  unfold clean_line_safe. intros Hsafe Hrem.
  rewrite forallb_forall in Hsafe.
  specialize (Hsafe (nat_of_ascii c)).
  rewrite ascii_nat_embedding, Hrem in Hsafe. apply Hsafe.
  apply in_seq. pose proof (nat_ascii_bounded c). lia.
Qed.

Local Abbreviation skel := (skeleton symbols).

Lemma skeleton_app a b : skel (a +:+ b) = skel a ++ skel b.
Proof. unfold skeleton, structural. by rewrite char_list_app, filter_app. Qed.

Lemma skeleton_plain c s :
  plain_char symbols c = true → skel (String c s) = skel s.
Proof.
  intros [Hv Hk]%plain_char_spec. unfold skeleton. cbn [char_list].
  by apply structural_cons_plain.
Qed.

Context (Hsafe : clean_line_safe symbols = true).

Lemma skeleton_removable c s : removable c = true → skel (String c s) = skel s.
Proof. intros Hrem. by apply skeleton_plain, clean_line_safe_plain. Qed.

Lemma skeleton_END s : skel ("END" +:+ s) = skel s.
Proof.
  change ("END" +:+ s) with (String "E" (String "N" (String "D" s))).
  by rewrite !skeleton_removable.
Qed.

Lemma skeleton_replace_END s : skel (replace "END" "" s) = skel s.
Proof.
  destruct (join_END_complete s) as (pieces & last & -> & Hpieces & Hlast).
  rewrite replace_join_END by done. unfold join_END.
  clear Hpieces. induction pieces as [|piece pieces IH]; [done|].
  cbn [foldr]. by rewrite !(skeleton_app piece), skeleton_END, IH.
Qed.

Lemma skeleton_remove_newline s :
  skel (remove_char (ascii_of_nat 10) s) = skel s.
Proof.
  induction s as [|c s IH]; [done|]. cbn [remove_char].
  destruct (Ascii.eqb c (ascii_of_nat 10)) eqn:Hc.
  - apply Ascii.eqb_eq in Hc as ->. by rewrite IH, skeleton_removable.
  - unfold skeleton in *. cbn [char_list]. unfold structural in *.
    rewrite !filter_cons. by rewrite IH.
Qed.

Lemma skeleton_lstrip s : skel (lstrip s) = skel s.
Proof.
  induction s as [|c s IH]; [done|]. cbn [lstrip].
  destruct (isspace c) eqn:Hc; [|done].
  rewrite IH, skeleton_removable; [done|]. unfold removable. by rewrite Hc.
Qed.

Lemma skeleton_rstrip s : skel (rstrip s) = skel s.
Proof.
  induction s as [|c s IH]; [done|]. cbn [rstrip].
  assert (skel (String c s) = skel (String c (rstrip s))) as ->.
  { change (String c s) with (String c "" +:+ s).
    change (String c (rstrip s)) with (String c "" +:+ rstrip s).
    by rewrite !skeleton_app, IH. }
  destruct (rstrip s) as [|c' s']; [|done].
  destruct (isspace c) eqn:Hc; [|done].
  rewrite skeleton_removable; [done|]. unfold removable. by rewrite Hc.
Qed.

Lemma skeleton_clean_line line : skel (clean_line line) = skel line.
Proof.
  unfold clean_line, strip.
  by rewrite skeleton_lstrip, skeleton_rstrip, replace_newline,
    skeleton_remove_newline, skeleton_replace_END.
Qed.
End skeleton.

(** X12. When no white-space character and none of the letters of
    ["END"] is an opening or a closing symbol, as with the default
    mapping, a line and the text made from it give the same result:
    the rows of a dataset can be checked in place of its lines. *)
Theorem clean_line_preserves_balance line symbols :
  clean_line_safe symbols = true →
  is_balanced (clean_line line) symbols = is_balanced line symbols.
Proof.
  intros Hsafe. unfold is_balanced.
  rewrite <- (for_loop_structural symbols (char_list (clean_line line))).
  rewrite <- (for_loop_structural symbols (char_list line)).
  pose proof (skeleton_clean_line symbols Hsafe line) as Heq.
  unfold skeleton in Heq. by rewrite Heq.
Qed.

Lemma clean_line_preserves_balance_witness :
  is_balanced (clean_line ("( [ ] ) END" +:+ newline)) default_symbols
  = is_balanced ("( [ ] ) END" +:+ newline) default_symbols.
Proof.
  apply (clean_line_preserves_balance ("( [ ] ) END" +:+ newline) default_symbols).
  vm_compute. reflexivity.
Defined.

(** ** Further properties of [dyck2dataset] *)

Section sums.
Context {A : Type}.
Implicit Types (g h : A → nat) (l : list A).

Lemma sum_list_with_ext g h l :
  (∀ x, x ∈ l → g x = h x) → sum_list_with g l = sum_list_with h l.
Proof.
  induction l as [|x l IH]; intros Hext; [done|]. cbn.
  rewrite Hext by left. rewrite IH; [done|]. intros y Hy. apply Hext. by right.
Qed.

Lemma sum_list_with_add g h l :
  sum_list_with (λ x, g x + h x) l = sum_list_with g l + sum_list_with h l.
Proof. induction l as [|x l IH]; [done|]. cbn. rewrite IH. lia. Qed.

Lemma sum_list_with_fmap {B : Type} (f : B → A) g (l : list B) :
  sum_list_with g (f <$> l) = sum_list_with (λ x, g (f x)) l.
Proof. induction l as [|x l IH]; [done|]. cbn. by rewrite IH. Qed.
End sums.

Lemma sum_indicator_notin (x : string) (S : list string) :
  x ∉ S → sum_list_with (λ s, if decide (x = s) then 1 else 0) S = 0.
Proof.
  induction S as [|s S IH]; [done|]. intros [Hne Hnot]%not_elem_of_cons.
  cbn. rewrite decide_False by done. by rewrite IH.
Qed.

Lemma sum_indicator_in (x : string) (S : list string) :
  NoDup S → x ∈ S → sum_list_with (λ s, if decide (x = s) then 1 else 0) S = 1.
Proof.
  induction 1 as [|s S Hs _ IH]; [by intros ?%elem_of_nil|].
  cbn. intros [->|Hin]%elem_of_cons.
  - rewrite decide_True by done. by rewrite sum_indicator_notin.
  - rewrite decide_False by (intros ->; done). by rewrite IH.
Qed.

(** Sorting rows by a key that takes its values in [S] loses no row. *)
Lemma filter_partition_length {A : Type} (f : A → string) (S : list string)
    (rows : list A) :
  NoDup S → (∀ r, r ∈ rows → f r ∈ S) →
  sum_list_with (λ s, length (filter (λ r, f r = s) rows)) S = length rows.
Proof.
  intros HS. induction rows as [|r rows IH]; intros Hin.
  - cbn. rewrite (sum_list_with_ext _ (λ _, 0 + 0)) by done.
    rewrite sum_list_with_add. clear. induction S as [|s S IH]; [done|].
    cbn. lia.
  - rewrite (sum_list_with_ext _
      (λ s, (if decide (f r = s) then 1 else 0)
            + length (filter (λ r, f r = s) rows))).
    2:{ intros s _. rewrite filter_cons. by case_decide. }
    rewrite sum_list_with_add, sum_indicator_in, IH; [done| | |].
    + intros r' Hr'. apply Hin. by right.
    + done.
    + apply Hin. by left.
Qed.

Section loader_more.
Variable basename : string → string.
Variable parse : string → option parsed.
Variable fs : gmap string (list string).
Implicit Types (files good rest : list string) (p : parsed) (s : string).

Local Abbreviation ok_file := (loadable basename parse fs).
Local Abbreviation all_rows := (table_rows basename parse fs).
Local Abbreviation flat_names := (col_names false ++ ["text"]).
Local Abbreviation split_names := (col_names true ++ ["text"]).

Lemma for_files_app use_splits files1 files2 dd :
  for_files basename parse fs use_splits (files1 ++ files2) dd =
    for_files basename parse fs use_splits files1 dd
    ≫= for_files basename parse fs use_splits files2.
Proof.
  revert dd. induction files1 as [|file_path files1 IH]; intros dd; [done|].
  cbn [app for_files].
  destruct (file_body basename parse fs use_splits file_path dd) as [dd1|e];
    [|done].
  rewrite !bind_Ok. apply IH.
Qed.

Lemma dyck2dataset_unfold files use_splits :
  dyck2dataset basename parse fs files use_splits =
    (if use_splits
     then dd ← for_files basename parse fs true files (∅ : gmap string columns);
          splits ← from_dict_each (map_to_list dd);
          Ok (DatasetDict (list_to_map splits))
     else dd ← for_files basename parse fs false files (∅ : columns);
          table ← from_dict dd;
          Ok (Dataset table)).
Proof. by destruct use_splits. Qed.

(** X13. A file whose name does not follow the pattern makes the call
    raise [TypeError], also after files that were loaded, with or
    without splits, and whether or not the file can be read. *)
Theorem dyck2dataset_bad_name good bad rest use_splits :
  Forall ok_file good → parse (basename bad) = None →
  dyck2dataset basename parse fs (good ++ bad :: rest) use_splits = Raise TypeError.
Proof.
  intros Hgood Hbad. rewrite dyck2dataset_unfold.
  destruct use_splits; rewrite for_files_app.
  - destruct (for_files_splits basename parse fs good [] ∅ Hgood) as (dd & -> & _).
    { intros s. by rewrite lookup_empty. }
    rewrite bind_Ok. cbn [for_files]. unfold file_body. by rewrite Hbad.
  - rewrite (for_files_flat basename parse fs good [] ∅ Hgood)
      by apply init_columns_empty.
    rewrite bind_Ok. cbn [for_files]. unfold file_body. by rewrite Hbad.
Qed.

(** X14. A file whose name follows the pattern but that cannot be opened
    makes the call raise the error of [open], also after files that
    were loaded, with or without splits. *)
Theorem dyck2dataset_missing_file good bad rest use_splits p :
  Forall ok_file good →
  parse (basename bad) = Some p → fs !! bad = None →
  dyck2dataset basename parse fs (good ++ bad :: rest) use_splits
    = Raise FileNotFoundError.
Proof.
  intros Hgood Hp Hbad. rewrite dyck2dataset_unfold.
  assert (∀ cs, fill_split fs use_splits p bad cs = Raise FileNotFoundError)
    as Hfill.
  { intros cs. unfold fill_split, readlines. by rewrite Hbad. }
  destruct use_splits; rewrite for_files_app.
  - destruct (for_files_splits basename parse fs good [] ∅ Hgood) as (dd & -> & _).
    { intros s. by rewrite lookup_empty. }
    rewrite bind_Ok. cbn [for_files]. unfold file_body. rewrite Hp, bind_Ok.
    cbv [dataset_dict_type]. unfold getitem.
    destruct (in_keys dd (parsed_subset p)) eqn:Hin; cbn [negb].
    + apply in_keys_true in Hin as [cur ->]. by rewrite bind_Ok, Hfill.
    + by rewrite lookup_insert_eq, bind_Ok, Hfill.
  - rewrite (for_files_flat basename parse fs good [] ∅ Hgood)
      by apply init_columns_empty.
    rewrite bind_Ok. cbn [for_files]. unfold file_body.
    by rewrite Hp, bind_Ok, Hfill.
Qed.

Lemma lookup_flat_table files name :
  match files with
  | [] => (∅ : columns)
  | _ => layout flat_names (all_rows files)
  end !! name =
  if bool_decide (files ≠ [] ∧ name ∈ flat_names)
  then Some (cell name <$> all_rows files) else None.
Proof.
  destruct files as [|file_path files].
  - rewrite lookup_empty. by rewrite bool_decide_eq_false_2 by (by intros [? _]).
  - rewrite lookup_layout. case_bool_decide as Hin.
    + by rewrite bool_decide_eq_true_2.
    + by rewrite bool_decide_eq_false_2 by (by intros [_ ?]).
Qed.

(** X15. The columns of a table have the same length: without splits,
    the number of lines of the files; with splits, in the table of a
    subset, the number of rows of that table. *)
Theorem dyck2dataset_rectangular files :
  Forall ok_file files →
  (∀ table name col,
     dyck2dataset basename parse fs files false = Ok (Dataset table) →
     table !! name = Some col → length col = line_count fs files)
  ∧ (∀ splits s table name col,
       dyck2dataset basename parse fs files true = Ok (DatasetDict splits) →
       splits !! s = Some table → table !! name = Some col →
       length col = num_rows table).
Proof.
  intros Hfiles. split.
  - intros table name col Hret%dyck2dataset_flat_inv.
    rewrite (for_files_flat basename parse fs files [] ∅ Hfiles) in Hret
      by apply init_columns_empty.
    injection Hret as <-. cbn [app].
    rewrite lookup_flat_table. case_bool_decide; [|done]. intros [= <-].
    rewrite length_fmap. by apply table_rows_length.
  - intros splits s table name col Hret%dyck2dataset_splits_inv.
    destruct (for_files_splits basename parse fs files [] ∅ Hfiles)
      as (dd & Hrun & Hdd).
    { intros s'. by rewrite lookup_empty. }
    rewrite Hrun in Hret. injection Hret as <-. rewrite (Hdd s).
    case_bool_decide; [|done]. intros [= <-].
    rewrite lookup_layout. case_bool_decide; [|done]. intros [= <-].
    rewrite num_rows_layout by (by apply (bool_decide_unpack _)).
    by rewrite length_fmap.
Qed.

(** X16. Without splits, the table of a list of files followed by
    another is, column by column, the table of the first followed by the
    table of the second. *)
Theorem dyck2dataset_app files1 files2 table1 table2 :
  Forall ok_file (files1 ++ files2) →
  dyck2dataset basename parse fs files1 false = Ok (Dataset table1) →
  dyck2dataset basename parse fs files2 false = Ok (Dataset table2) →
  dyck2dataset basename parse fs (files1 ++ files2) false =
    Ok (Dataset (union_with (λ col1 col2, Some (col1 ++ col2)) table1 table2)).
Proof.
  intros Hfiles Hret1 Hret2. pose proof Hfiles as [H1 H2]%Forall_app.
  pose proof (proj1 (from_dict_fits _) (dyck2dataset_flat_fits _ _ _ _ _ Hret1))
    as Hfit1.
  pose proof (proj1 (from_dict_fits _) (dyck2dataset_flat_fits _ _ _ _ _ Hret2))
    as Hfit2.
  apply dyck2dataset_flat_inv in Hret1, Hret2.
  rewrite (for_files_flat basename parse fs files1 [] ∅ H1) in Hret1
    by apply init_columns_empty.
  rewrite (for_files_flat basename parse fs files2 [] ∅ H2) in Hret2
    by apply init_columns_empty.
  injection Hret1 as Htable1. injection Hret2 as Htable2.
  cbn [app] in Htable1, Htable2.
  assert (match files1 ++ files2 with
          | [] => (∅ : columns)
          | _ => layout flat_names (all_rows (files1 ++ files2))
          end = union_with (λ col1 col2, Some (col1 ++ col2)) table1 table2)
    as Hunion.
  { rewrite <- Htable1, <- Htable2. apply map_eq. intros name.
    rewrite lookup_union_with. rewrite !lookup_flat_table.
    destruct (decide (name ∈ flat_names)) as [Hin|Hnin].
    2:{ by rewrite !bool_decide_eq_false_2 by (by intros [_ ?]). }
    assert (∀ l : list string,
              bool_decide (l ≠ [] ∧ name ∈ flat_names) =
                match l with [] => false | _ => true end) as Hnonempty.
    { intros [|x l]; [by rewrite bool_decide_eq_false_2 by (by intros [? _])|].
      by rewrite bool_decide_eq_true_2. }
    rewrite !Hnonempty. unfold table_rows. rewrite bind_app, fmap_app.
    destruct files1 as [|f1 files1], files2 as [|f2 files2]; cbn [app];
      try done.
    cbn [mbind list_bind fmap list_fmap union_with option_union_with].
    by rewrite app_nil_r. }
  unfold dyck2dataset.
  rewrite (for_files_flat basename parse fs _ [] ∅ Hfiles)
    by apply init_columns_empty.
  rewrite bind_Ok. cbn [app]. rewrite Hunion.
  assert (from_dict (union_with (λ col1 col2, Some (col1 ++ col2)) table1 table2)
          = Ok (union_with (λ col1 col2, Some (col1 ++ col2)) table1 table2))
    as ->.
  { apply from_dict_fits. intros name col. rewrite lookup_union_with.
    destruct (table1 !! name) as [col1|] eqn:Hcol1,
      (table2 !! name) as [col2|] eqn:Hcol2; cbn; intros [= <-].
    - apply Forall_app. split; [by eapply Hfit1|by eapply Hfit2].
    - by eapply Hfit1.
    - by eapply Hfit2. }
  by rewrite bind_Ok.
Qed.

Lemma row_subset r files :
  r ∈ all_rows files → parsed_subset r.1 ∈ subsets basename parse files.
Proof.
  unfold table_rows, subsets. intros (file_path & Hr & Hfile)%list_elem_of_bind.
  apply list_elem_of_omap. exists file_path. split; [done|].
  unfold file_rows in Hr.
  destruct (parse (basename file_path)) as [p|]; [|by apply elem_of_nil in Hr].
  destruct (fs !! file_path) as [lines|]; [|by apply elem_of_nil in Hr].
  apply list_elem_of_fmap in Hr as (line & -> & _). done.
Qed.

(** X17. With splits, the tables have together as many rows as the
    files have lines: no line is lost and none is taken twice. *)
Theorem dyck2dataset_splits_total files splits :
  Forall ok_file files →
  dyck2dataset basename parse fs files true = Ok (DatasetDict splits) →
  sum_list_with (λ entry, num_rows entry.2) (map_to_list splits)
    = line_count fs files.
Proof.
  intros Hfiles Hret%dyck2dataset_splits_inv.
  destruct (for_files_splits basename parse fs files [] ∅ Hfiles)
    as (dd & Hrun & Hdd).
  { intros s. by rewrite lookup_empty. }
  rewrite Hrun in Hret. injection Hret as <-. cbn [app] in Hdd.
  cbv [dataset_dict_type] in dd.
  set (S := remove_dups (subsets basename parse files)).
  set (T := λ s, layout split_names (rows_in basename parse fs files s)).
  assert (map_to_list dd ≡ₚ (λ s, (s, T s)) <$> S) as ->.
  { apply NoDup_Permutation.
    - apply NoDup_map_to_list.
    - apply NoDup_fmap_2_strong; [|apply NoDup_remove_dups].
      by intros s1 s2 _ _ [= ->].
    - intros [s table]. rewrite elem_of_map_to_list, (Hdd s), list_elem_of_fmap.
      unfold S. split.
      + case_bool_decide as Hs; [|done]. intros [= <-].
        exists s. split; [done|]. by apply elem_of_remove_dups.
      + intros (s' & [= -> ->] & Hs'). rewrite elem_of_remove_dups in Hs'.
        by rewrite bool_decide_eq_true_2. }
  rewrite sum_list_with_fmap. cbn [snd].
  rewrite (sum_list_with_ext _
    (λ s, length (filter (λ r : parsed * string, parsed_subset r.1 = s)
                    (all_rows files)))).
  2:{ intros s _. unfold T.
      by rewrite num_rows_layout by (by apply (bool_decide_unpack _)). }
  rewrite filter_partition_length.
  - by apply table_rows_length.
  - apply NoDup_remove_dups.
  - intros r Hr. apply elem_of_remove_dups. by apply row_subset.
Qed.

Lemma layout_fits names rows :
  Forall (λ r, row_fits r = true) rows →
  map_Forall (λ _ col, Forall (λ v, cell_fits v = true) col) (layout names rows).
Proof.
  intros Hrows name col. rewrite lookup_layout.
  case_bool_decide; [|done]. intros [= <-].
  apply Forall_fmap. eapply Forall_impl; [done|].
  intros r [Hk Hm]%andb_true_iff. unfold cell.
  by repeat (case_match; try done).
Qed.

Lemma layout_overflow names rows :
  "k" ∈ names → "m" ∈ names →
  Exists (λ r, row_fits r = false) rows →
  ¬ map_Forall (λ _ col, Forall (λ v, cell_fits v = true) col) (layout names rows).
Proof.
  intros Hk Hm (r & Hr & Hfit)%Exists_exists Hall.
  apply andb_false_iff in Hfit as [Hfit|Hfit].
  - specialize (Hall "k" (cell "k" <$> rows)).
    rewrite lookup_layout, bool_decide_eq_true_2 in Hall by done.
    specialize (Hall eq_refl). rewrite Forall_fmap, Forall_forall in Hall.
    specialize (Hall r Hr). cbn in Hall. congruence.
  - specialize (Hall "m" (cell "m" <$> rows)).
    rewrite lookup_layout, bool_decide_eq_true_2 in Hall by done.
    specialize (Hall eq_refl). rewrite Forall_fmap, Forall_forall in Hall.
    specialize (Hall r Hr). cbn in Hall. congruence.
Qed.

Lemma from_dict_overflow mapping :
  ¬ map_Forall (λ _ col, Forall (λ v, cell_fits v = true) col) mapping →
  from_dict mapping = Raise OverflowError.
Proof. intros Hnot. unfold from_dict. by rewrite bool_decide_eq_false_2. Qed.

Lemma from_dict_each_fits (items : list (string * columns)) :
  Forall (λ item,
    map_Forall (λ _ col, Forall (λ v, cell_fits v = true) col) item.2) items →
  from_dict_each items = Ok items.
Proof.
  induction 1 as [|[split mapping] items Hfit _ IH]; [done|].
  cbn [from_dict_each]. rewrite (proj2 (from_dict_fits mapping)) by done.
  by rewrite bind_Ok, IH, bind_Ok.
Qed.

Lemma from_dict_each_overflow (items : list (string * columns)) :
  Exists (λ item,
    ¬ map_Forall (λ _ col, Forall (λ v, cell_fits v = true) col) item.2) items →
  from_dict_each items = Raise OverflowError.
Proof.
  induction items as [|[split mapping] items IH]; intros Hex;
    [by apply Exists_nil in Hex|].
  cbn [from_dict_each]. unfold from_dict at 1. case_bool_decide as Hfit.
  - rewrite bind_Ok. apply Exists_cons in Hex as [Hex|Hex]; [done|].
    by rewrite IH.
  - done.
Qed.

(** X18. When the names of the files follow the pattern, the files can
    be read and the [k] and [m] of every row fit in 64 bits, the call
    returns a dataset, with or without splits. *)
Theorem dyck2dataset_returns files use_splits :
  Forall ok_file files →
  Forall (λ r, row_fits r = true) (all_rows files) →
  ∃ d, dyck2dataset basename parse fs files use_splits = Ok d.
Proof.
  intros Hfiles Hrows. rewrite dyck2dataset_unfold. destruct use_splits.
  - destruct (for_files_splits basename parse fs files [] ∅ Hfiles)
      as (dd & Hrun & Hdd).
    { intros s. by rewrite lookup_empty. }
    rewrite Hrun. cbv [dataset_dict_type] in dd.
    rewrite bind_Ok, from_dict_each_fits; [by eexists|].
    apply Forall_forall. intros [s table] Hin.
    apply (elem_of_map_to_list dd) in Hin.
    rewrite (Hdd s) in Hin. case_bool_decide; [|done].
    injection Hin as <-. apply layout_fits.
    apply Forall_forall. unfold rows_in.
    intros r [_ Hr]%list_elem_of_filter.
    by apply (proj1 (Forall_forall _ _) Hrows).
  - rewrite (for_files_flat basename parse fs files [] ∅ Hfiles)
      by apply init_columns_empty.
    rewrite bind_Ok, (proj2 (from_dict_fits _)); [by eexists|].
    destruct files; [apply map_Forall_empty|]. by apply layout_fits.
Qed.

(** X19. When the names of the files follow the pattern and the files
    can be read, a row whose [k] or [m] does not fit in 64 bits makes
    the call raise [OverflowError], with or without splits. *)
Theorem dyck2dataset_overflow files use_splits :
  Forall ok_file files →
  Exists (λ r, row_fits r = false) (all_rows files) →
  dyck2dataset basename parse fs files use_splits = Raise OverflowError.
Proof.
  intros Hfiles Hrows. rewrite dyck2dataset_unfold. destruct use_splits.
  - destruct (for_files_splits basename parse fs files [] ∅ Hfiles)
      as (dd & Hrun & Hdd).
    { intros s. by rewrite lookup_empty. }
    rewrite Hrun. cbv [dataset_dict_type] in dd.
    rewrite bind_Ok, from_dict_each_overflow; [done|].
    apply Exists_exists in Hrows as (r & Hr & Hfit).
    apply Exists_exists.
    exists (parsed_subset r.1,
            layout split_names (rows_in basename parse fs files (parsed_subset r.1))).
    split.
    + apply (elem_of_map_to_list dd). rewrite (Hdd (parsed_subset r.1)).
      by rewrite bool_decide_eq_true_2 by (by apply row_subset).
    + apply layout_overflow; [decide_by_vm..|].
      apply Exists_exists. exists r. split; [|done].
      by apply list_elem_of_filter.
  - rewrite (for_files_flat basename parse fs files [] ∅ Hfiles)
      by apply init_columns_empty.
    rewrite bind_Ok, from_dict_overflow; [done|].
    destruct files as [|file_path files].
    { by apply Exists_nil in Hrows. }
    by apply layout_overflow; [decide_by_vm..|].
Qed.
End loader_more.

Lemma dyck2dataset_bad_name_witness :
  dyck2dataset id
    (λ name, if String.eqb name "notes.txt" then None
             else Some (Parsed 128 10 "2000000" "train"))
    {[ "k128_m10_tr2000000.train" := ["( ) END" +:+ newline] ]}
    (["k128_m10_tr2000000.train"] ++ "notes.txt" :: []) true
  = Raise TypeError.
Proof.
  apply (dyck2dataset_bad_name id _ _ ["k128_m10_tr2000000.train"] "notes.txt" [] true).
  - decide_by_vm.
  - reflexivity.
Defined.

Lemma dyck2dataset_missing_file_witness :
  dyck2dataset id (λ _, Some (Parsed 128 10 "2000000" "train"))
    {[ "k128_m10_tr2000000.train" := ["( ) END" +:+ newline] ]}
    (["k128_m10_tr2000000.train"] ++ "k128_m10_tr2000000.dev" :: []) false
  = Raise FileNotFoundError.
Proof.
  apply (dyck2dataset_missing_file id _ _ ["k128_m10_tr2000000.train"]
           "k128_m10_tr2000000.dev" [] false (Parsed 128 10 "2000000" "train")).
  - decide_by_vm.
  - reflexivity.
  - vm_compute. reflexivity.
Defined.

Lemma dyck2dataset_rectangular_witness :
  let parse := λ _ : string, Some (Parsed 128 10 "2000000" "train") in
  let fs : gmap string (list string) :=
    {[ "k128_m10_tr2000000.train" := ["( [ ] ) END" +:+ newline; newline] ]} in
  let files := ["k128_m10_tr2000000.train"] in
  (∀ table name col,
     dyck2dataset id parse fs files false = Ok (Dataset table) →
     table !! name = Some col → length col = line_count fs files)
  ∧ (∀ splits s table name col,
       dyck2dataset id parse fs files true = Ok (DatasetDict splits) →
       splits !! s = Some table → table !! name = Some col →
       length col = num_rows table).
Proof.
  intros parse fs files.
  apply (dyck2dataset_rectangular id parse fs files).
  decide_by_vm.
Defined.

Lemma dyck2dataset_app_witness :
  let parse := λ _ : string, Some (Parsed 128 10 "2000000" "train") in
  let fs : gmap string (list string) :=
    {[ "a.train" := ["( ) END" +:+ newline]; "b.train" := ["[ ] END" +:+ newline] ]} in
  dyck2dataset id parse fs (["a.train"] ++ ["b.train"]) false =
    Ok (Dataset (union_with (λ col1 col2, Some (col1 ++ col2))
                   (layout ["k"; "m"; "tr"; "subset"; "text"]
                      (table_rows id parse fs ["a.train"]))
                   (layout ["k"; "m"; "tr"; "subset"; "text"]
                      (table_rows id parse fs ["b.train"])))).
Proof.
  intros parse fs.
  apply (dyck2dataset_app id parse fs ["a.train"] ["b.train"]).
  - decide_by_vm.
  - vm_compute. reflexivity.
  - vm_compute. reflexivity.
Defined.

Lemma dyck2dataset_splits_total_witness :
  let parse := λ name : string,
    Some (Parsed 128 10 "2000000"
            (if String.eqb name "a.train" then "train" else "test")) in
  let fs : gmap string (list string) :=
    {[ "a.train" := ["( ) END" +:+ newline; newline];
       "b.test" := ["[ ] END" +:+ newline] ]} in
  let files := ["a.train"; "b.test"] in
  let splits : gmap string columns :=
    {[ "train" := {[ "k" := [VInt 128; VInt 128]; "m" := [VInt 10; VInt 10];
                     "tr" := [VStr "2000000"; VStr "2000000"];
                     "text" := [VStr "( )"; VStr ""] ]};
       "test" := {[ "k" := [VInt 128]; "m" := [VInt 10];
                    "tr" := [VStr "2000000"]; "text" := [VStr "[ ]"] ]} ]} in
  sum_list_with (λ entry, num_rows entry.2) (map_to_list splits)
    = line_count fs files.
Proof.
  intros parse fs files splits.
  apply (dyck2dataset_splits_total id parse fs files splits).
  - decide_by_vm.
  - vm_compute. reflexivity.
Defined.

Lemma dyck2dataset_returns_witness :
  ∃ d,
    dyck2dataset id (λ _, Some (Parsed 128 10 "2000000" "train"))
      {[ "k128_m10_tr2000000.train" := ["( [ ] ) END" +:+ newline; newline] ]}
      ["k128_m10_tr2000000.train"] true
    = Ok d.
Proof.
  apply (dyck2dataset_returns id (λ _, Some (Parsed 128 10 "2000000" "train"))
           {[ "k128_m10_tr2000000.train" := ["( [ ] ) END" +:+ newline; newline] ]}
           ["k128_m10_tr2000000.train"] true).
  - decide_by_vm.
  - decide_by_vm.
Defined.

Lemma dyck2dataset_overflow_witness :
  dyck2dataset id (λ _, Some (Parsed (2 ^ 63) 10 "2000000" "train"))
    {[ "k9223372036854775808_m10_tr2000000.train" := ["( ) END" +:+ newline] ]}
    ["k9223372036854775808_m10_tr2000000.train"] false
  = Raise OverflowError.
Proof.
  apply (dyck2dataset_overflow id
           (λ _, Some (Parsed (2 ^ 63) 10 "2000000" "train"))
           {[ "k9223372036854775808_m10_tr2000000.train" := ["( ) END" +:+ newline] ]}
           ["k9223372036854775808_m10_tr2000000.train"] false).
  - decide_by_vm.
  - decide_by_vm.
Defined.
